(** * task-sync: a shallow embedding of [main.py] and its verification

    The program keeps, per task service, a Python list of [Task] objects and
    offers one algorithm, [sync_tasks], that pushes the state of a first
    service onto a second one.  This file embeds

    - the [Task] value class with its [to_dict] serialiser,
    - [MockTaskService] ([fetch_tasks], [update_task], [add_task]) over a
      store of service objects, in a state-and-exception monad that also
      records every mutating call,
    - the insertion-ordered dictionaries built by [sync_tasks], and
    - [sync_tasks] itself,

    and then proves what the code does for each documented property. *)

From stdpp Require Import functions base option list sets strings.
From Stdlib Require Import Ascii.

(** ** Python values used by the program *)

(** A naive [datetime.datetime] ([tzinfo] is [None], [fold] is 0), by its
    attributes; this is what the program itself builds ([datetime(2023, 10,
    1)]).  The constructor of the Python class rejects out-of-range
    attributes; [valid_datetime] below is that check.  Aware datetimes are
    not part of this model: for them [isoformat] also writes the UTC offset
    and keeps neither the zone nor [fold], so what is proved below about the
    text of a due date is about naive due dates only. *)
Record datetime : Type := mk_datetime {
  year : N;
  month : N;
  day : N;
  hour : N;
  minute : N;
  second : N;
  microsecond : N
}.

Definition is_leap (y : N) : bool :=
  ((y mod 4 =? 0) && (negb (y mod 100 =? 0) || (y mod 400 =? 0)))%N.

Definition days_in_month (y m : N) : N :=
  (if m =? 2 then (if is_leap y then 29 else 28)
   else if (m =? 4) || (m =? 6) || (m =? 9) || (m =? 11) then 30
   else 31)%N.

Definition valid_datetime (d : datetime) : bool :=
  ((1 <=? year d) && (year d <=? 9999) &&
   (1 <=? month d) && (month d <=? 12) &&
   (1 <=? day d) && (day d <=? days_in_month (year d) (month d)) &&
   (hour d <? 24) && (minute d <? 60) && (second d <? 60) &&
   (microsecond d <? 1000000))%N.

(** [class Task]: four attributes, stored as given.  The annotation of
    [due_date] is [datetime], but nothing in [__init__] checks it, so the
    attribute may hold [None]. *)
Record Task : Type := mk_Task {
  task_id : string;
  name : string;
  completed : bool;
  due_date : option datetime
}.

Global Instance datetime_eq_dec : EqDecision datetime.
Proof. solve_decision. Defined.

Global Instance Task_eq_dec : EqDecision Task.
Proof. solve_decision. Defined.

(** Exceptions the modelled code can raise. *)
Inductive exn : Type :=
  | SyncError (msg : string)
  | AttributeError (msg : string)
  | KeyError (key : string)
  | TypeError (msg : string)
  | ValueError (msg : string).

Inductive result (A : Type) : Type :=
  | Ok (a : A)
  | Raise (e : exn).
Arguments Ok {A} a.
Arguments Raise {A} e.

Definition is_ok {A} (r : result A) : bool :=
  match r with Ok _ => true | Raise _ => false end.

(** ** Insertion-ordered dictionaries

    A Python [dict] keeps its keys in insertion order; assigning to a key
    that is already there replaces the value and leaves the position. *)
Definition dict (V : Type) : Type := list (string * V).

Fixpoint dict_set {V} (k : string) (v : V) (d : dict V) : dict V :=
  match d with
  | [] => [(k, v)]
  | (k', v') :: d' =>
      if decide (k' = k) then (k, v) :: d' else (k', v') :: dict_set k v d'
  end.

Fixpoint dict_get {V} (k : string) (d : dict V) : option V :=
  match d with
  | [] => None
  | (k', v') :: d' => if decide (k' = k) then Some v' else dict_get k d'
  end.

Definition dict_keys {V} (d : dict V) : list string := d.*1.

(** [{task.task_id: task for task in l}] *)
Definition dict_by_id (l : list Task) : dict Task :=
  foldl (λ d task, dict_set (task_id task) task d) [] l.

(** ** Serialisation *)

Inductive pyval : Type :=
  | PyStr (s : string)
  | PyBool (b : bool).

Definition digit (n : N) : ascii := ascii_of_N (48 + n).

(** The [w] low decimal digits of [n], most significant first. *)
Fixpoint low_digits (w : nat) (n : N) : list ascii :=
  match w with
  | 0 => []
  | S w' => low_digits w' (n / 10)%N ++ [digit (n mod 10)%N]
  end.

Fixpoint decimal_width (fuel : nat) (n : N) : nat :=
  match fuel with
  | 0 => 1
  | S fuel' => if (n <? 10)%N then 1 else S (decimal_width fuel' (n / 10)%N)
  end.

(** The format [%0wd] on a natural number: its decimal digits, padded with
    zeros on the left up to width [w]. *)
Definition fmt_0d (w : nat) (n : N) : list ascii :=
  if (n <? 10 ^ N.of_nat w)%N then low_digits w n
  else low_digits (decimal_width (N.to_nat n) n) n.

(** [datetime.isoformat()] of a naive datetime:
    [YYYY-MM-DDTHH:MM:SS], followed by [.ffffff] when the microsecond is
    not zero.  (An aware datetime would get its UTC offset appended; see
    [datetime] above.) *)
Definition isoformat_chars (d : datetime) : list ascii :=
  fmt_0d 4 (year d) ++ ["-"%char] ++ fmt_0d 2 (month d) ++ ["-"%char] ++
  fmt_0d 2 (day d) ++ ["T"%char] ++
  fmt_0d 2 (hour d) ++ [":"%char] ++ fmt_0d 2 (minute d) ++ [":"%char] ++
  fmt_0d 2 (second d) ++
  (if (microsecond d =? 0)%N then [] else ["."%char] ++ fmt_0d 6 (microsecond d)).

Definition isoformat (d : datetime) : string :=
  String.string_of_list_ascii (isoformat_chars d).

(** [Task.to_dict].  [self.due_date.isoformat()] is an attribute access on
    whatever [due_date] holds: on [None] it raises [AttributeError]. *)
Definition to_dict (self : Task) : result (dict pyval) :=
  match due_date self with
  | Some d =>
      Ok (dict_set "due_date" (PyStr (isoformat d))
         (dict_set "completed" (PyBool (completed self))
         (dict_set "name" (PyStr (name self))
         (dict_set "task_id" (PyStr (task_id self)) []))))
  | None =>
      Raise (AttributeError "'NoneType' object has no attribute 'isoformat'")
  end.

(** Modelled from the spec: the deserialiser, which the source does not have
    (it only serialises).  The spec asks that a serialised task can be read
    back ("Task -> serialized -> Task yields field-equal result") and fixes
    ISO-8601 for the due date.  [fromisoformat] reads the fixed-width layout
    that [isoformat] writes and, like the constructor of [datetime], rejects
    out-of-range attributes; [from_dict] reads the four keys of [to_dict]. *)
Definition digit_value (c : ascii) : option N :=
  let n := N_of_ascii c in
  if ((48 <=? n) && (n <=? 57))%N then Some (n - 48)%N else None.

Fixpoint parse_digits (acc : N) (cs : list ascii) : option N :=
  match cs with
  | [] => Some acc
  | c :: cs' => d ← digit_value c; parse_digits (10 * acc + d)%N cs'
  end.

Definition parse_fraction (cs : list ascii) : option N :=
  match cs with
  | [] => Some 0%N
  | c :: f =>
      if bool_decide (c = "."%char) && bool_decide (length f = 6)
      then parse_digits 0 f else None
  end.

Definition fromisoformat (s : string) : option datetime :=
  match String.list_ascii_of_string s with
  | y1 :: y2 :: y3 :: y4 :: c1 :: m1 :: m2 :: c2 :: d1 :: d2 :: c3 ::
    h1 :: h2 :: c4 :: n1 :: n2 :: c5 :: s1 :: s2 :: frac =>
      if bool_decide (c1 = "-"%char) && bool_decide (c2 = "-"%char) &&
         bool_decide (c3 = "T"%char) &&
         bool_decide (c4 = ":"%char) && bool_decide (c5 = ":"%char)
      then
        y ← parse_digits 0 [y1; y2; y3; y4];
        m ← parse_digits 0 [m1; m2];
        d ← parse_digits 0 [d1; d2];
        h ← parse_digits 0 [h1; h2];
        n ← parse_digits 0 [n1; n2];
        sec ← parse_digits 0 [s1; s2];
        us ← parse_fraction frac;
        let dt := mk_datetime y m d h n sec us in
        if valid_datetime dt then Some dt else None
      else None
  | _ => None
  end.

Definition from_dict (d : dict pyval) : result Task :=
  match dict_get "task_id" d, dict_get "name" d,
        dict_get "completed" d, dict_get "due_date" d with
  | Some (PyStr i), Some (PyStr n), Some (PyBool c), Some (PyStr s) =>
      match fromisoformat s with
      | Some dt => Ok (mk_Task i n c (Some dt))
      | None => Raise (ValueError ("Invalid isoformat string: " +:+ s))
      end
  | None, _, _, _ => Raise (KeyError "task_id")
  | _, None, _, _ => Raise (KeyError "name")
  | _, _, None, _ => Raise (KeyError "completed")
  | _, _, _, None => Raise (KeyError "due_date")
  | _, _, _, _ => Raise (TypeError "unexpected value type")
  end.

(** The invariant of (naive) [datetime] objects, lifted to tasks: a due
    date, when there is one, is within the range of the class. *)
Definition valid_task (t : Task) : Prop :=
  ∀ d, due_date t = Some d → valid_datetime d = true.

(** ** Task services

    [TaskServiceBase] only declares [fetch_tasks], [update_task] and
    [add_task] (each raises [NotImplementedError]); [MockTaskService] is its
    one implementation, an in-memory task list, and the services below are
    objects of that class.  They live in a store indexed by reference, so
    that the two arguments of [sync_tasks] may or may not denote the same
    object. *)
Definition service_ref : Type := nat.

Record MockTaskService : Type := mk_service {
  service_name : string;
  tasks : list Task
}.

(** A mutating call on a service, noted as the method is entered, where the
    source writes its log line. *)
Inductive call : Type :=
  | UpdateTask (target : service_ref) (task : Task)
  | AddTask (target : service_ref) (task : Task).

Global Instance call_eq_dec : EqDecision call.
Proof. solve_decision. Defined.

Definition call_target (c : call) : service_ref :=
  match c with UpdateTask r _ | AddTask r _ => r end.

Definition call_task (c : call) : Task :=
  match c with UpdateTask _ t | AddTask _ t => t end.

Definition is_update (c : call) : bool :=
  match c with UpdateTask _ _ => true | AddTask _ _ => false end.

Record world : Type := mk_world {
  services : service_ref → MockTaskService;
  calls : list call
}.

(** State and exceptions: a computation runs on a world and either returns
    or raises; in both cases the world it leaves behind is kept. *)
Definition M (A : Type) : Type := world → result A * world.

Definition ret {A} (a : A) : M A := λ w, (Ok a, w).

Definition bind {A B} (m : M A) (k : A → M B) : M B :=
  λ w, match m w with
       | (Ok a, w') => k a w'
       | (Raise e, w') => (Raise e, w')
       end.

Definition raise {A} (e : exn) : M A := λ w, (Raise e, w).

Global Instance M_ret : MRet M := @ret.
Global Instance M_bind : MBind M := λ A B k m, bind m k.

Definition get_tasks (self : service_ref) : M (list Task) :=
  λ w, (Ok (tasks (services w self)), w).

Definition set_tasks (self : service_ref) (l : list Task) : M unit :=
  λ w, (Ok tt,
        {| services :=
             <[self := {| service_name := service_name (services w self);
                          tasks := l |}]> (services w);
           calls := calls w |}).

Definition get_name (self : service_ref) : M string :=
  λ w, (Ok (service_name (services w self)), w).

Definition record (c : call) : M unit :=
  λ w, (Ok tt, {| services := services w; calls := calls w ++ [c] |}).

(** [MockTaskService.fetch_tasks] *)
Definition fetch_tasks (self : service_ref) : M (list Task) :=
  get_tasks self.

(** The [for i, t in enumerate(self.tasks)] loop of [update_task]: [rest] is
    what is left to enumerate, [i] the index of its head; [None] stands for
    the loop running to its end. *)
Fixpoint update_scan (task : Task) (i : nat) (rest all : list Task)
    : option (list Task) :=
  match rest with
  | [] => None
  | t :: rest' =>
      if decide (task_id t = task_id task) then Some (<[i := task]> all)
      else update_scan task (S i) rest' all
  end.

(** [MockTaskService.update_task] *)
Definition update_task (self : service_ref) (task : Task) : M unit :=
  record (UpdateTask self task);;
  l ← get_tasks self;
  match update_scan task 0 l l with
  | Some l' => set_tasks self l'
  | None =>
      n ← get_name self;
      raise (SyncError ("Task " +:+ task_id task +:+ " not found in " +:+ n +:+ "."))
  end.

(** [MockTaskService.add_task] *)
Definition add_task (self : service_ref) (task : Task) : M unit :=
  record (AddTask self task);;
  l ← get_tasks self;
  set_tasks self (l ++ [task]).

(** ** The synchronisation *)

Fixpoint for_each {A} (xs : list A) (body : A → M unit) : M unit :=
  match xs with
  | [] => ret tt
  | x :: xs' => body x;; for_each xs' body
  end.

(** The body of the loop over [tasks1.items()]. *)
Definition sync_item (service2 : service_ref) (tasks2 : dict Task)
    (item : string * Task) : M unit :=
  let '(tid, task1) := item in
  match dict_get tid tasks2 with
  | Some task2 =>
      if negb (bool_decide (completed task1 = completed task2))
      then update_task service2 task1
      else ret tt
  | None => add_task service2 task1
  end.

(** [sync_tasks].  The [try ... except Exception: ... raise] around the body
    logs and raises the same exception again, so it does not show here. *)
Definition sync_tasks (service1 service2 : service_ref) : M unit :=
  l1 ← fetch_tasks service1;
  let tasks1 := dict_by_id l1 in
  l2 ← fetch_tasks service2;
  let tasks2 := dict_by_id l2 in
  for_each tasks1 (sync_item service2 tasks2).

(** Running a computation on given services with an empty call record. *)
Definition run {A} (m : M A) (sv : service_ref → MockTaskService)
    : result A * world :=
  m {| services := sv; calls := [] |}.

(** ** Views used to state and prove the properties *)

Definition ids (l : list Task) : list string := task_id <$> l.

(** The entries of a task list that carry a given id, in list order. *)
Definition with_id (i : string) (l : list Task) : list Task :=
  filter (λ t, task_id t = i) l.

(** The calls of a record that concern a given id. *)
Definition calls_for (i : string) (cs : list call) : list call :=
  filter (λ c, task_id (call_task c) = i) cs.

(** Replacing the first entry that has the id of [task], by structural
    recursion; [update_scan_replace_first] relates it to the index loop. *)
Fixpoint replace_first (task : Task) (l : list Task) : option (list Task) :=
  match l with
  | [] => None
  | t :: l' =>
      if decide (task_id t = task_id task) then Some (task :: l')
      else (t ::.) <$> replace_first task l'
  end.

(** What one round of the loop of [sync_tasks] does to the task list of the
    second service, and which call it makes. *)
Definition item_effect (tasks2 : dict Task) (l : list Task)
    (item : string * Task) : list Task :=
  match dict_get item.1 tasks2 with
  | Some task2 =>
      if negb (bool_decide (completed item.2 = completed task2))
      then default l (replace_first item.2 l)
      else l
  | None => l ++ [item.2]
  end.

Definition item_calls (service2 : service_ref) (tasks2 : dict Task)
    (item : string * Task) : list call :=
  match dict_get item.1 tasks2 with
  | Some task2 =>
      if negb (bool_decide (completed item.2 = completed task2))
      then [UpdateTask service2 item.2]
      else []
  | None => [AddTask service2 item.2]
  end.

(** The state of the services after [sync_tasks] has run on [sv]. *)
Definition after_sync (service1 service2 : service_ref)
    (sv : service_ref → MockTaskService) : world :=
  (run (sync_tasks service1 service2) sv).2.

(** Two tasks with equal content in the sense of the spec. *)
Definition content_equal (t1 t2 : Task) : Prop :=
  name t1 = name t2 ∧ completed t1 = completed t2 ∧ due_date t1 = due_date t2.

(** The world after a mutating call [c] has stored [l] in service [r]. *)
Definition put_tasks (w : world) (r : service_ref) (l : list Task)
    (c : call) : world :=
  {| services := <[r := {| service_name := service_name (services w r);
                           tasks := l |}]> (services w);
     calls := calls w ++ [c] |}.

(** The entries with one id in the second service after the synchronisation,
    from the entry [t1] of the first dictionary, the entry [t2] of the second
    and the entries [v] there were before. *)
Definition entries_after (t1 t2 : option Task) (v : list Task) : list Task :=
  match t1, t2 with
  | None, _ => v
  | Some task1, Some task2 =>
      if negb (bool_decide (completed task1 = completed task2))
      then task1 :: tail v
      else v
  | Some task1, None => v ++ [task1]
  end.

(** The calls about one id, from the same two dictionary entries. *)
Definition calls_after (service2 : service_ref) (t1 t2 : option Task)
    : list call :=
  match t1, t2 with
  | None, _ => []
  | Some task1, Some task2 =>
      if negb (bool_decide (completed task1 = completed task2))
      then [UpdateTask service2 task1]
      else []
  | Some task1, None => [AddTask service2 task1]
  end.

(** ** Concrete services

    [MockTaskService.__init__] fills every new service with the same two
    tasks; [two_services] is a store with given lists behind the references
    [0] and [1]. *)
Definition new_service (service_name : string) : MockTaskService :=
  {| service_name := service_name;
     tasks := [mk_Task "1" "Task 1" false (Some (mk_datetime 2023 10 1 0 0 0 0));
               mk_Task "2" "Task 2" true (Some (mk_datetime 2023 10 5 0 0 0 0))] |}.

Definition two_services (l1 l2 : list Task) : service_ref → MockTaskService :=
  λ r, if decide (r = 0) then {| service_name := "Mock Service 1"; tasks := l1 |}
       else {| service_name := "Mock Service 2"; tasks := l2 |}.

Definition oct_1 : datetime := mk_datetime 2023 10 1 0 0 0 0.

Definition t1_open : Task := mk_Task "1" "Task 1" false (Some oct_1).
Definition t1_done : Task := mk_Task "1" "Task 1" true (Some oct_1).
Definition t1_renamed : Task := mk_Task "1" "Task one" false (Some oct_1).
Definition t1_undated : Task := mk_Task "1" "Task 1" false None.

(** ** The rest of the program: [main] *)

(** [[task.to_dict() for task in l]]: the comprehension evaluates [to_dict]
    task by task and stops at the first one that raises. *)
Fixpoint to_dicts (l : list Task) : result (list (dict pyval)) :=
  match l with
  | [] => Ok []
  | task :: l' =>
      match to_dict task with
      | Ok d =>
          match to_dicts l' with
          | Ok ds => Ok (d :: ds)
          | Raise e => Raise e
          end
      | Raise e => Raise e
      end
  end.

Definition from_result {A} (r : result A) : M A := λ w, (r, w).

(** The value [main] hands to [json.dumps] before logging it: the
    dictionaries of the tasks a service returns.  Their values are strings
    and booleans, which [json.dumps] always accepts; the text it produces is
    not modelled. *)
Definition dump_tasks (service : service_ref) : M (list (dict pyval)) :=
  l ← fetch_tasks service;
  from_result (to_dicts l).

(** [try: body except Exception as e: handler] *)
Definition try_except {A} (body : M A) (handler : exn → M A) : M A :=
  λ w, match body w with
       | (Ok a, w') => (Ok a, w')
       | (Raise e, w') => handler e w'
       end.

(** [MockTaskService(service_name)], stored behind the reference [self]. *)
Definition construct (self : service_ref) (service_name : string) : M unit :=
  λ w, (Ok tt,
        {| services := <[self := new_service service_name]> (services w);
           calls := calls w |}).

(** The statements of [main] that follow the two constructor calls. *)
Definition main_body (service1 service2 : service_ref) : M unit :=
  dump_tasks service1;;
  dump_tasks service2;;
  sync_tasks service1 service2;;
  dump_tasks service1;;
  dump_tasks service2;;
  ret tt.

(** [main], with the references of the two objects it creates.  Its handler
    logs the exception and returns. *)
Definition main (service1 service2 : service_ref) : M unit :=
  try_except
    (construct service1 "Mock Service 1";;
     construct service2 "Mock Service 2";;
     main_body service1 service2)
    (λ _, ret tt).

(** A task list all of whose tasks have a due date. *)
Definition all_dated (l : list Task) : Prop :=
  Forall (λ t, due_date t ≠ None) l.

Global Instance all_dated_dec l : Decision (all_dated l).
Proof. unfold all_dated. apply _. Defined.

(** ** Services by class

    [sync_tasks] is written against [TaskServiceBase] and calls the methods
    of whatever object it is given.  [TaskServiceBase] itself implements none
    of them: each raises [NotImplementedError].  A class table says of which
    class the object behind a reference is; an object of the base class has a
    name and no task list of its own, so the [tasks] stored for it are never
    read. *)
Inductive service_class : Type :=
  | class_TaskServiceBase
  | class_MockTaskService.

Inductive raised : Type :=
  | NotImplementedError (msg : string)
  | Raised (e : exn).

Inductive outcome (A : Type) : Type :=
  | Returns (a : A)
  | Throws (e : raised).
Arguments Returns {A} a.
Arguments Throws {A} e.

Definition D (A : Type) : Type := world → outcome A * world.

Definition D_unit {A} (a : A) : D A := λ w, (Returns a, w).

Definition D_then {A B} (m : D A) (k : A → D B) : D B :=
  λ w, match m w with
       | (Returns a, w') => k a w'
       | (Throws e, w') => (Throws e, w')
       end.

Global Instance D_ret : MRet D := @D_unit.
Global Instance D_bind : MBind D := λ A B k m, D_then m k.

(** A method of [MockTaskService], run where any class is allowed. *)
Definition of_mock {A} (m : M A) : D A :=
  λ w, match m w with
       | (Ok a, w') => (Returns a, w')
       | (Raise e, w') => (Throws (Raised e), w')
       end.

Definition not_implemented {A} : D A :=
  λ w, (Throws (NotImplementedError
                  "This method needs to be overridden by subclasses."), w).

Definition fetch_tasks_of (cls : service_ref → service_class)
    (self : service_ref) : D (list Task) :=
  match cls self with
  | class_TaskServiceBase => not_implemented
  | class_MockTaskService => of_mock (fetch_tasks self)
  end.

Definition update_task_of (cls : service_ref → service_class)
    (self : service_ref) (task : Task) : D unit :=
  match cls self with
  | class_TaskServiceBase => not_implemented
  | class_MockTaskService => of_mock (update_task self task)
  end.

Definition add_task_of (cls : service_ref → service_class)
    (self : service_ref) (task : Task) : D unit :=
  match cls self with
  | class_TaskServiceBase => not_implemented
  | class_MockTaskService => of_mock (add_task self task)
  end.

Fixpoint for_each_of {A} (xs : list A) (body : A → D unit) : D unit :=
  match xs with
  | [] => mret tt
  | x :: xs' => body x;; for_each_of xs' body
  end.

(** [sync_tasks] with its method calls dispatched on the class of the
    receiver. *)
Definition sync_item_of (cls : service_ref → service_class)
    (service2 : service_ref) (tasks2 : dict Task)
    (item : string * Task) : D unit :=
  let '(tid, task1) := item in
  match dict_get tid tasks2 with
  | Some task2 =>
      if negb (bool_decide (completed task1 = completed task2))
      then update_task_of cls service2 task1
      else mret tt
  | None => add_task_of cls service2 task1
  end.

Definition sync_tasks_of (cls : service_ref → service_class)
    (service1 service2 : service_ref) : D unit :=
  l1 ← fetch_tasks_of cls service1;
  let tasks1 := dict_by_id l1 in
  l2 ← fetch_tasks_of cls service2;
  let tasks2 := dict_by_id l2 in
  for_each_of tasks1 (sync_item_of cls service2 tasks2).

(** * Facts about the dictionaries *)

Section dict_facts.
Context {V : Type}.
Implicit Types (d : dict V) (k : string) (v : V).

Lemma dict_get_set k k' v d :
  dict_get k' (dict_set k v d) =
  if decide (k = k') then Some v else dict_get k' d.
Proof.
  induction d as [|[k0 v0] d IH]; simpl.
  - done.
  - destruct (decide (k0 = k)) as [->|Hne]; simpl.
    + destruct (decide (k = k')); done.
    + rewrite IH. destruct (decide (k0 = k')) as [->|]; [|done].
      destruct (decide (k = k')); congruence.
Qed.

Lemma dict_keys_set k v d :
  dict_keys (dict_set k v d) =
  if decide (k ∈ dict_keys d) then dict_keys d else dict_keys d ++ [k].
Proof.
  unfold dict_keys. induction d as [|[k0 v0] d IH]; csimpl.
  - done.
  - destruct (decide (k0 = k)) as [->|Hne]; csimpl.
    + clear IH. by rewrite decide_True by left.
    + rewrite IH. clear IH. destruct (decide (k ∈ d.*1)).
      * by rewrite decide_True by (by right).
      * rewrite decide_False; [done|].
        by intros [->|?]%elem_of_cons.
Qed.

Lemma dict_get_None k d : dict_get k d = None ↔ k ∉ dict_keys d.
Proof.
  unfold dict_keys. induction d as [|[k0 v0] d IH]; csimpl.
  - split; [intros _; apply not_elem_of_nil|done].
  - rewrite not_elem_of_cons. destruct (decide (k0 = k)) as [->|Hne].
    + split; [done|]. by intros [? _].
    + rewrite IH. split; [|by intros [_ ?]]. intros ?. split; [congruence|done].
Qed.

Lemma dict_get_Some_elem k v d : dict_get k d = Some v → (k, v) ∈ d.
Proof.
  induction d as [|[k0 v0] d IH]; simpl; [done|].
  destruct (decide (k0 = k)) as [->|Hne].
  - intros [= ->]. left.
  - intros H. right. by apply IH.
Qed.

Lemma dict_elem_get k v d :
  NoDup (dict_keys d) → (k, v) ∈ d → dict_get k d = Some v.
Proof.
  unfold dict_keys. induction d as [|[k0 v0] d IH]; csimpl.
  - intros _ H. by apply elem_of_nil in H.
  - intros [Hnin Hnd]%NoDup_cons [[= -> ->]|Hin]%elem_of_cons.
    + by rewrite decide_True.
    + destruct (decide (k0 = k)) as [->|Hne]; [|by apply IH].
      exfalso. apply Hnin. apply list_elem_of_fmap. by exists (k, v).
Qed.

Lemma dict_set_NoDup k v d :
  NoDup (dict_keys d) → NoDup (dict_keys (dict_set k v d)).
Proof.
  intros Hnd. rewrite dict_keys_set.
  destruct (decide (k ∈ dict_keys d)) as [|Hnin]; [done|].
  apply NoDup_app. split_and!; [done| |apply NoDup_singleton].
  intros x Hx ->%list_elem_of_singleton. done.
Qed.

Lemma dict_set_keys_elem k k' v d :
  k' ∈ dict_keys (dict_set k v d) ↔ k' = k ∨ k' ∈ dict_keys d.
Proof.
  rewrite dict_keys_set. destruct (decide (k ∈ dict_keys d)) as [Hin|Hnin].
  - split; [by right|]. by intros [->|?].
  - rewrite elem_of_app, list_elem_of_singleton. tauto.
Qed.
End dict_facts.

(** * Entries by id *)

Lemma with_id_cons i t l :
  with_id i (t :: l) =
  if decide (task_id t = i) then t :: with_id i l else with_id i l.
Proof. unfold with_id. by rewrite filter_cons. Qed.

Lemma with_id_app i l1 l2 : with_id i (l1 ++ l2) = with_id i l1 ++ with_id i l2.
Proof. unfold with_id. apply filter_app. Qed.

Lemma elem_of_with_id i t l : t ∈ with_id i l ↔ task_id t = i ∧ t ∈ l.
Proof. unfold with_id. by rewrite list_elem_of_filter. Qed.

Lemma with_id_nil i l : with_id i l = [] ↔ i ∉ ids l.
Proof.
  unfold ids. induction l as [|t l IH]; csimpl.
  - split; [intros _; apply not_elem_of_nil|done].
  - rewrite with_id_cons, not_elem_of_cons.
    destruct (decide (task_id t = i)) as [->|Hne].
    + split; [done|]. by intros [? _].
    + rewrite IH. split; [|by intros [_ ?]]. intros ?. split; [congruence|done].
Qed.

Lemma with_id_unique l t :
  NoDup (ids l) → t ∈ l → with_id (task_id t) l = [t].
Proof.
  unfold ids. induction l as [|t0 l IH]; simpl.
  - intros _ H. by apply elem_of_nil in H.
  - rewrite with_id_cons. intros [Hnin Hnd]%NoDup_cons [->|Hin]%elem_of_cons.
    + rewrite decide_True by done. f_equal. by apply with_id_nil.
    + destruct (decide (task_id t0 = task_id t)) as [Heq|Hne]; [|by apply IH].
      exfalso. apply Hnin. rewrite Heq. by apply list_elem_of_fmap_2.
Qed.

Lemma with_id_NoDup_length i l : NoDup (ids l) → length (with_id i l) ≤ 1.
Proof.
  intros Hnd. destruct (with_id i l) as [|t r] eqn:E; simpl; [lia|].
  assert (t ∈ with_id i l) as [Hid Hin]%elem_of_with_id by (rewrite E; left).
  rewrite <- Hid, (with_id_unique l t) in E by done. by inversion E.
Qed.

(** * The dictionary of a task list *)

Lemma dict_by_id_acc_get i l (d : dict Task) :
  dict_get i (foldl (λ d task, dict_set (task_id task) task d) d l) =
  match last (with_id i l) with Some t => Some t | None => dict_get i d end.
Proof.
  revert d. induction l as [|t l IH]; intros d; simpl; [done|].
  rewrite IH, with_id_cons, dict_get_set.
  destruct (decide (task_id t = i)) as [Heq|Hne]; [|done].
  rewrite last_cons. by destruct (last (with_id i l)).
Qed.

Lemma dict_by_id_get i l : dict_get i (dict_by_id l) = last (with_id i l).
Proof.
  unfold dict_by_id. rewrite dict_by_id_acc_get.
  by destruct (last (with_id i l)).
Qed.

Lemma dict_by_id_acc_NoDup l (d : dict Task) :
  NoDup (dict_keys d) →
  NoDup (dict_keys (foldl (λ d task, dict_set (task_id task) task d) d l)).
Proof.
  revert d. induction l as [|t l IH]; intros d Hd; simpl; [done|].
  by apply IH, dict_set_NoDup.
Qed.

Lemma dict_by_id_NoDup l : NoDup (dict_keys (dict_by_id l)).
Proof. apply dict_by_id_acc_NoDup, NoDup_nil_2. Qed.

Lemma dict_by_id_get_None i l : dict_get i (dict_by_id l) = None ↔ i ∉ ids l.
Proof. by rewrite dict_by_id_get, last_None, with_id_nil. Qed.

Lemma dict_by_id_keys i l : i ∈ dict_keys (dict_by_id l) ↔ i ∈ ids l.
Proof.
  destruct (decide (i ∈ ids l)) as [Hin|Hnin].
  - split; [done|]. intros _.
    destruct (decide (i ∈ dict_keys (dict_by_id l))) as [|H]; [done|].
    apply dict_get_None, dict_by_id_get_None in H. done.
  - split; [|done]. intros H. exfalso.
    apply dict_by_id_get_None in Hnin. apply dict_get_None in Hnin. done.
Qed.

Lemma dict_by_id_get_Some i t l :
  dict_get i (dict_by_id l) = Some t → task_id t = i ∧ t ∈ l.
Proof.
  rewrite dict_by_id_get. intros H%last_Some_elem_of.
  by apply elem_of_with_id in H.
Qed.

Lemma dict_by_id_item k t l :
  (k, t) ∈ dict_by_id l → dict_get k (dict_by_id l) = Some t.
Proof. apply dict_elem_get, dict_by_id_NoDup. Qed.

Lemma dict_by_id_unique l t :
  NoDup (ids l) → t ∈ l → dict_get (task_id t) (dict_by_id l) = Some t.
Proof. intros Hnd Hin. by rewrite dict_by_id_get, with_id_unique. Qed.

(** * [update_task] on the list of a service *)

Lemma update_scan_replace_first task pre rest :
  update_scan task (length pre) rest (pre ++ rest) =
  (pre ++.) <$> replace_first task rest.
Proof.
  revert pre. induction rest as [|t rest IH]; intros pre; simpl; [done|].
  destruct (decide (task_id t = task_id task)) as [Heq|Hne]; simpl.
  - f_equal. rewrite insert_app_r_alt by lia. by rewrite Nat.sub_diag.
  - specialize (IH (pre ++ [t])).
    rewrite length_app, Nat.add_1_r, <- app_assoc in IH. simpl in IH.
    rewrite IH. destruct (replace_first task rest); simpl; [|done].
    by rewrite <- app_assoc.
Qed.

Lemma update_scan_whole task l :
  update_scan task 0 l l = replace_first task l.
Proof.
  pose proof (update_scan_replace_first task [] l) as H. simpl in H.
  rewrite H. by destruct (replace_first task l).
Qed.

Lemma replace_first_None task l :
  replace_first task l = None ↔ task_id task ∉ ids l.
Proof.
  unfold ids. induction l as [|t l IH]; csimpl.
  - split; [intros _; apply not_elem_of_nil|done].
  - rewrite not_elem_of_cons. destruct (decide (task_id t = task_id task)).
    + split; [done|]. intros [? _]. congruence.
    + rewrite fmap_None, IH. split; [|by intros [_ ?]].
      intros ?. split; [congruence|done].
Qed.

(** A successful replacement splits the list at the first entry with the id
    of the new task. *)
Lemma replace_first_Some task l l' :
  replace_first task l = Some l' →
  ∃ pre t post, l = pre ++ t :: post ∧ task_id t = task_id task ∧
    (task_id task ∉ ids pre) ∧ l' = pre ++ task :: post.
Proof.
  revert l'. induction l as [|t l IH]; intros l'; simpl; [done|].
  destruct (decide (task_id t = task_id task)) as [Heq|Hne].
  - intros [= <-]. exists [], t, l. split_and!; try done. apply not_elem_of_nil.
  - destruct (replace_first task l) as [l0|]; simpl; [|done].
    intros [= <-]. destruct (IH l0 eq_refl) as (pre & t' & post & -> & ? & ? & ->).
    exists (t :: pre), t', post. split_and!; try done.
    unfold ids; csimpl. apply not_elem_of_cons. split; [congruence|done].
Qed.

Lemma replace_first_is_Some task l :
  task_id task ∈ ids l → is_Some (replace_first task l).
Proof.
  intros Hin. destruct (replace_first task l) eqn:E; [by eexists|].
  by apply replace_first_None in E.
Qed.

Lemma replace_first_ids task l l' :
  replace_first task l = Some l' → ids l' = ids l.
Proof.
  intros (pre & t & post & -> & Heq & _ & ->)%replace_first_Some.
  unfold ids. rewrite !fmap_app. csimpl. by rewrite Heq.
Qed.

Lemma replace_first_with_id i task l l' :
  replace_first task l = Some l' →
  with_id i l' =
  if decide (task_id task = i) then task :: tail (with_id i l) else with_id i l.
Proof.
  intros (pre & t & post & -> & Heq & Hpre & ->)%replace_first_Some.
  rewrite !with_id_app, !with_id_cons, Heq.
  destruct (decide (task_id task = i)) as [<-|Hne]; [|done].
  apply with_id_nil in Hpre. by rewrite Hpre.
Qed.

Lemma replace_first_index task l l' :
  replace_first task l = Some l' →
  ∃ k t, l !! k = Some t ∧ task_id t = task_id task ∧
    (∀ j t', j < k → l !! j = Some t' → task_id t' ≠ task_id task) ∧
    l' = <[k := task]> l.
Proof.
  intros (pre & t & post & -> & Heq & Hpre & ->)%replace_first_Some.
  exists (length pre), t. split_and!.
  - by rewrite list_lookup_middle.
  - done.
  - intros j t' Hj Hl Hid. rewrite lookup_app_l in Hl by done.
    apply Hpre. rewrite <- Hid. apply list_elem_of_fmap_2.
    by eapply list_elem_of_lookup_2.
  - rewrite insert_app_r_alt by lia. by rewrite Nat.sub_diag.
Qed.

(** * Running the service methods *)

Lemma update_task_run r task w :
  update_task r task w =
  match replace_first task (tasks (services w r)) with
  | Some l' => (Ok tt, put_tasks w r l' (UpdateTask r task))
  | None =>
      (Raise (SyncError ("Task " +:+ task_id task +:+ " not found in " +:+
                         service_name (services w r) +:+ ".")),
       {| services := services w; calls := calls w ++ [UpdateTask r task] |})
  end.
Proof.
  unfold update_task, mbind, M_bind, bind, record, get_tasks; simpl.
  rewrite update_scan_whole.
  by destruct (replace_first task (tasks (services w r))).
Qed.

Lemma add_task_run r task w :
  add_task r task w =
  (Ok tt, put_tasks w r (tasks (services w r) ++ [task]) (AddTask r task)).
Proof. reflexivity. Qed.

Lemma put_tasks_tasks w r l c : tasks (services (put_tasks w r l c) r) = l.
Proof. unfold put_tasks; simpl. by rewrite fn_lookup_insert. Qed.

Lemma put_tasks_name w r l c :
  service_name (services (put_tasks w r l c) r) = service_name (services w r).
Proof. unfold put_tasks; simpl. by rewrite fn_lookup_insert. Qed.

Lemma put_tasks_other w r r' l c :
  r' ≠ r → services (put_tasks w r l c) r' = services w r'.
Proof. intros ?. unfold put_tasks; simpl. by rewrite fn_lookup_insert_ne. Qed.

Lemma put_tasks_calls w r l c : calls (put_tasks w r l c) = calls w ++ [c].
Proof. reflexivity. Qed.

(** * One round of the loop *)

Lemma item_effect_ids tasks2 l item :
  ids (item_effect tasks2 l item) =
  ids l ++ (if dict_get item.1 tasks2 is None then [task_id item.2] else []).
Proof.
  unfold item_effect. destruct (dict_get item.1 tasks2) as [task2|].
  - rewrite app_nil_r.
    destruct (negb (bool_decide (completed item.2 = completed task2))); [|done].
    destruct (replace_first item.2 l) as [l'|] eqn:E; simpl; [|done].
    by eapply replace_first_ids.
  - unfold ids. by rewrite fmap_app.
Qed.

Lemma item_effect_ids_mono tasks2 l item i :
  i ∈ ids l → i ∈ ids (item_effect tasks2 l item).
Proof. intros ?. rewrite item_effect_ids. apply elem_of_app. by left. Qed.

(** The loop body never raises as long as the ids snapshotted in [tasks2] are
    still in the list of the second service. *)
Lemma sync_item_run r2 tasks2 k t1 w :
  (∀ i, i ∈ dict_keys tasks2 → i ∈ ids (tasks (services w r2))) →
  task_id t1 = k →
  ∃ w', sync_item r2 tasks2 (k, t1) w = (Ok tt, w') ∧
    tasks (services w' r2) = item_effect tasks2 (tasks (services w r2)) (k, t1) ∧
    service_name (services w' r2) = service_name (services w r2) ∧
    (∀ r, r ≠ r2 → services w' r = services w r) ∧
    calls w' = calls w ++ item_calls r2 tasks2 (k, t1).
Proof.
  intros Hinv Hid. unfold sync_item, item_effect, item_calls; simpl.
  destruct (dict_get k tasks2) as [task2|] eqn:Hget.
  - destruct (negb (bool_decide (completed t1 = completed task2))).
    + rewrite update_task_run.
      destruct (replace_first_is_Some t1 (tasks (services w r2))) as [l' Hl'].
      { rewrite Hid. apply Hinv.
        destruct (decide (k ∈ dict_keys tasks2)) as [|Hn]; [done|].
        apply dict_get_None in Hn. congruence. }
      rewrite Hl'; simpl. eexists. split; [done|].
      rewrite put_tasks_tasks, put_tasks_name, put_tasks_calls.
      split_and!; try done. intros r ?. by apply put_tasks_other.
    + exists w. rewrite app_nil_r. by split_and!.
  - rewrite add_task_run. eexists. split; [done|].
    rewrite put_tasks_tasks, put_tasks_name, put_tasks_calls.
    split_and!; try done. intros r ?. by apply put_tasks_other.
Qed.

Lemma for_each_sync_item r2 tasks2 items w :
  (∀ i, i ∈ dict_keys tasks2 → i ∈ ids (tasks (services w r2))) →
  (∀ k t, (k, t) ∈ items → task_id t = k) →
  ∃ w', for_each items (sync_item r2 tasks2) w = (Ok tt, w') ∧
    tasks (services w' r2) =
      foldl (item_effect tasks2) (tasks (services w r2)) items ∧
    service_name (services w' r2) = service_name (services w r2) ∧
    (∀ r, r ≠ r2 → services w' r = services w r) ∧
    calls w' = calls w ++ (items ≫= item_calls r2 tasks2).
Proof.
  revert w. induction items as [|[k t1] items IH]; intros w Hinv Hitems.
  - exists w. simpl. rewrite app_nil_r. by split_and!.
  - destruct (sync_item_run r2 tasks2 k t1 w Hinv) as
      (w1 & Hrun1 & Ht1 & Hn1 & Ho1 & Hc1).
    { apply Hitems. left. }
    destruct (IH w1) as (w' & Hrun & Ht & Hn & Ho & Hc).
    { intros i Hi. rewrite Ht1. by apply item_effect_ids_mono, Hinv. }
    { intros k' t' Hin. apply Hitems. by right. }
    exists w'. split_and!.
    + cbn [for_each]. unfold mbind, M_bind, bind. by rewrite Hrun1.
    + by rewrite Ht, Ht1.
    + by rewrite Hn, Hn1.
    + intros r Hr. by rewrite Ho, Ho1.
    + rewrite Hc, Hc1. csimpl. by rewrite app_assoc.
Qed.

(** * The run of [sync_tasks]

    [sync_tasks] never raises on mock services; the second service ends with
    the fold of [item_effect] over the dictionary of the first one, and the
    calls are those of [item_calls], in dictionary order. *)
Lemma sync_tasks_run sv r1 r2 :
  ∃ w, run (sync_tasks r1 r2) sv = (Ok tt, w) ∧
    tasks (services w r2) =
      foldl (item_effect (dict_by_id (tasks (sv r2)))) (tasks (sv r2))
            (dict_by_id (tasks (sv r1))) ∧
    service_name (services w r2) = service_name (sv r2) ∧
    (∀ r, r ≠ r2 → services w r = sv r) ∧
    calls w =
      dict_by_id (tasks (sv r1)) ≫= item_calls r2 (dict_by_id (tasks (sv r2))).
Proof.
  unfold run, sync_tasks, fetch_tasks, get_tasks, mbind, M_bind, bind; simpl.
  destruct (for_each_sync_item r2 (dict_by_id (tasks (sv r2)))
              (dict_by_id (tasks (sv r1)))
              {| services := sv; calls := [] |}) as (w & Hrun & H).
  - simpl. intros i. by rewrite dict_by_id_keys.
  - intros k t Hin. by apply dict_by_id_item, dict_by_id_get_Some in Hin as [? _].
  - exists w. split; [exact Hrun|exact H].
Qed.

Lemma after_sync_run sv r1 r2 w :
  run (sync_tasks r1 r2) sv = (Ok tt, w) → after_sync r1 r2 sv = w.
Proof. unfold after_sync. by intros ->. Qed.

(** * The loop, seen id by id *)

Lemma item_effect_with_id tasks2 l k t1 i :
  task_id t1 = k →
  (∀ j, j ∈ dict_keys tasks2 → j ∈ ids l) →
  with_id i (item_effect tasks2 l (k, t1)) =
  if decide (k = i)
  then entries_after (Some t1) (dict_get k tasks2) (with_id i l)
  else with_id i l.
Proof.
  intros Hid Hinv. unfold item_effect, entries_after; simpl.
  destruct (dict_get k tasks2) as [task2|] eqn:Hget.
  - destruct (negb (bool_decide (completed t1 = completed task2))).
    + destruct (replace_first_is_Some t1 l) as [l' Hl'].
      { rewrite Hid. apply Hinv.
        destruct (decide (k ∈ dict_keys tasks2)) as [|Hn]; [done|].
        apply dict_get_None in Hn. congruence. }
      rewrite Hl'; simpl. rewrite (replace_first_with_id i t1 l l' Hl'), Hid.
      by destruct (decide (k = i)).
    + by destruct (decide (k = i)).
  - rewrite with_id_app, with_id_cons, Hid.
    destruct (decide (k = i)); [done|]. apply app_nil_r.
Qed.

Lemma item_calls_for r2 tasks2 k t1 i :
  task_id t1 = k →
  calls_for i (item_calls r2 tasks2 (k, t1)) =
  if decide (k = i) then calls_after r2 (Some t1) (dict_get k tasks2) else [].
Proof.
  intros Hid. unfold item_calls, calls_after, calls_for; simpl.
  destruct (dict_get k tasks2) as [task2|].
  - destruct (negb (bool_decide (completed t1 = completed task2))).
    + rewrite filter_cons; simpl. rewrite Hid. by destruct (decide (k = i)).
    + by destruct (decide (k = i)).
  - rewrite filter_cons; simpl. rewrite Hid. by destruct (decide (k = i)).
Qed.

Lemma foldl_item_effect_with_id tasks2 items l i :
  NoDup (dict_keys items) →
  (∀ k t, (k, t) ∈ items → task_id t = k) →
  (∀ j, j ∈ dict_keys tasks2 → j ∈ ids l) →
  with_id i (foldl (item_effect tasks2) l items) =
  entries_after (dict_get i items) (dict_get i tasks2) (with_id i l).
Proof.
  revert l. induction items as [|[k t1] items IH]; intros l Hnd Hitems Hinv.
  - done.
  - apply NoDup_cons in Hnd as [Hk Hnd]. simpl.
    rewrite IH; [|done| |].
    + rewrite item_effect_with_id; [|apply Hitems; left|done].
      destruct (decide (k = i)) as [->|Hne]; [|done].
      apply dict_get_None in Hk. simpl in Hk. by rewrite Hk.
    + intros k' t' Hin. apply Hitems. by right.
    + intros j Hj. by apply item_effect_ids_mono, Hinv.
Qed.

Lemma bind_item_calls_for r2 tasks2 items i :
  NoDup (dict_keys items) →
  (∀ k t, (k, t) ∈ items → task_id t = k) →
  calls_for i (items ≫= item_calls r2 tasks2) =
  calls_after r2 (dict_get i items) (dict_get i tasks2).
Proof.
  induction items as [|[k t1] items IH]; intros Hnd Hitems.
  - done.
  - apply NoDup_cons in Hnd as [Hk Hnd]. csimpl.
    unfold calls_for in *. rewrite filter_app.
    fold (calls_for i (item_calls r2 tasks2 (k, t1))).
    rewrite item_calls_for by (apply Hitems; left).
    rewrite IH; [|done|intros k' t' Hin; apply Hitems; by right].
    destruct (decide (k = i)) as [->|Hne]; [|done].
    apply dict_get_None in Hk. simpl in Hk. rewrite Hk. apply app_nil_r.
Qed.

(** What [sync_tasks] leaves behind, id by id. *)
Lemma sync_tasks_by_id sv r1 r2 i :
  let w := after_sync r1 r2 sv in
  let t1 := dict_get i (dict_by_id (tasks (sv r1))) in
  let t2 := dict_get i (dict_by_id (tasks (sv r2))) in
  with_id i (tasks (services w r2)) =
    entries_after t1 t2 (with_id i (tasks (sv r2))) ∧
  calls_for i (calls w) = calls_after r2 t1 t2.
Proof.
  destruct (sync_tasks_run sv r1 r2) as (w & Hrun & Ht & _ & _ & Hc).
  rewrite (after_sync_run _ _ _ _ Hrun). simpl. rewrite Ht, Hc.
  assert (∀ k t, (k, t) ∈ dict_by_id (tasks (sv r1)) → task_id t = k) as Hitems.
  { intros k t Hin.
    by apply dict_by_id_item, dict_by_id_get_Some in Hin as [? _]. }
  split.
  - apply foldl_item_effect_with_id; [apply dict_by_id_NoDup|done|].
    intros j. by rewrite dict_by_id_keys.
  - apply bind_item_calls_for; [apply dict_by_id_NoDup|done].
Qed.

Lemma sync_tasks_ok sv r1 r2 :
  run (sync_tasks r1 r2) sv = (Ok tt, after_sync r1 r2 sv).
Proof.
  destruct (sync_tasks_run sv r1 r2) as (w & Hrun & _).
  by rewrite (after_sync_run _ _ _ _ Hrun).
Qed.

Lemma sync_tasks_others sv r1 r2 r :
  r ≠ r2 → services (after_sync r1 r2 sv) r = sv r.
Proof.
  destruct (sync_tasks_run sv r1 r2) as (w & Hrun & _ & _ & Ho & _).
  rewrite (after_sync_run _ _ _ _ Hrun). apply Ho.
Qed.

(** Every call is made on the second service. *)
Lemma item_calls_target r2 tasks2 item c :
  c ∈ item_calls r2 tasks2 item → call_target c = r2.
Proof.
  unfold item_calls. destruct (dict_get item.1 tasks2) as [task2|].
  - destruct (negb (bool_decide (completed item.2 = completed task2))).
    + by intros ->%list_elem_of_singleton.
    + by intros ?%elem_of_nil.
  - by intros ->%list_elem_of_singleton.
Qed.

Lemma sync_tasks_targets sv r1 r2 c :
  c ∈ calls (after_sync r1 r2 sv) → call_target c = r2.
Proof.
  destruct (sync_tasks_run sv r1 r2) as (w & Hrun & _ & _ & _ & Hc).
  rewrite (after_sync_run _ _ _ _ Hrun), Hc.
  intros (item & Hin & _)%list_elem_of_bind. by eapply item_calls_target.
Qed.

(** When both arguments denote the same service the loop finds nothing to
    do: every entry is compared with itself. *)
Lemma sync_tasks_same_service sv r :
  calls (after_sync r r sv) = [] ∧
  tasks (services (after_sync r r sv) r) = tasks (sv r).
Proof.
  destruct (sync_tasks_run sv r r) as (w & Hrun & Ht & _ & _ & Hc).
  rewrite (after_sync_run _ _ _ _ Hrun), Ht, Hc.
  assert (∀ items l,
    (∀ k t, (k, t) ∈ items →
       dict_get k (dict_by_id (tasks (sv r))) = Some t) →
    items ≫= item_calls r (dict_by_id (tasks (sv r))) = [] ∧
    foldl (item_effect (dict_by_id (tasks (sv r)))) l items = l) as Hloop.
  { induction items as [|[k t] items IH]; intros l Hitems; [done|].
    assert (dict_get k (dict_by_id (tasks (sv r))) = Some t) as Hk
      by (apply Hitems; left).
    csimpl. unfold item_calls at 1, item_effect at 2; simpl. rewrite Hk.
    rewrite bool_decide_eq_true_2 by done. simpl.
    apply IH. intros k' t' Hin. apply Hitems. by right. }
  apply Hloop. intros k t. apply dict_by_id_item.
Qed.

(** * Properties of [sync_tasks] *)

Lemma filter_nil_Forall {A} (P : A → Prop) `{∀ x, Decision (P x)} (l : list A) :
  Forall (λ x, ¬ P x) l → filter P l = [].
Proof.
  induction 1 as [|x l Hx _ IH]; [done|]. by rewrite filter_cons_False.
Qed.

(** A loop over items that all agree with [tasks2] on [completed] makes no
    call and changes nothing. *)
Lemma loop_quiet r2 tasks2 items l :
  (∀ k t, (k, t) ∈ items →
     ∃ t2, dict_get k tasks2 = Some t2 ∧ completed t = completed t2) →
  items ≫= item_calls r2 tasks2 = [] ∧
  foldl (item_effect tasks2) l items = l.
Proof.
  revert l. induction items as [|[k t] items IH]; intros l Hitems; [done|].
  destruct (Hitems k t) as (t2 & Hk & Hc); [left|].
  csimpl. unfold item_calls at 1, item_effect at 2; simpl. rewrite Hk.
  rewrite bool_decide_eq_true_2 by done. simpl.
  apply IH. intros k' t' Hin. apply Hitems. by right.
Qed.

(** Two fresh mock services hold the same two tasks: the run of [main] makes
    no call. *)
Example fresh_services_make_no_call :
  run (sync_tasks 0 1)
      (λ r, new_service (if decide (r = 0) then "Mock Service 1"
                         else "Mock Service 2")) =
  (Ok tt, {| services := λ r, new_service (if decide (r = 0) then "Mock Service 1"
                                           else "Mock Service 2");
             calls := [] |}).
Proof. reflexivity. Qed.

(** C1, as the code has it.  The scenario of the spec has an open task in the
    first service and the same task completed in the second.  [Task] carries
    no modification time and [sync_tasks] copies from the first service to
    the second: the first service's state wins, the second service receives
    the one update, and the first service receives no call and keeps its
    task. *)
Theorem sync_first_service_wins sv r1 r2 i t1 t2 :
  with_id i (tasks (sv r1)) = [t1] →
  with_id i (tasks (sv r2)) = [t2] →
  completed t1 = false →
  completed t2 = true →
  let w := after_sync r1 r2 sv in
  run (sync_tasks r1 r2) sv = (Ok tt, w) ∧
  with_id i (tasks (services w r1)) = [t1] ∧
  with_id i (tasks (services w r2)) = [t1] ∧
  calls_for i (calls w) = [UpdateTask r2 t1] ∧
  filter (λ c, call_target c = r1) (calls w) = [].
Proof.
  intros H1 H2 Hc1 Hc2 w.
  assert (r1 ≠ r2) as Hne by (intros ->; congruence).
  destruct (sync_tasks_by_id sv r1 r2 i) as [Hv Hcs]. fold w in Hv, Hcs.
  rewrite !dict_by_id_get, H1, H2 in Hv, Hcs. simpl in Hv, Hcs.
  rewrite Hc1, Hc2 in Hv, Hcs. simpl in Hv, Hcs.
  split_and!.
  - apply sync_tasks_ok.
  - unfold w. by rewrite sync_tasks_others.
  - exact Hv.
  - exact Hcs.
  - apply filter_nil_Forall, Forall_forall. intros c Hin.
    apply sync_tasks_targets in Hin. congruence.
Qed.

Lemma sync_first_service_wins_witness :
  let w := after_sync 0 1 (two_services [t1_open] [t1_done]) in
  run (sync_tasks 0 1) (two_services [t1_open] [t1_done]) = (Ok tt, w) ∧
  with_id "1" (tasks (services w 0)) = [t1_open] ∧
  with_id "1" (tasks (services w 1)) = [t1_open] ∧
  calls_for "1" (calls w) = [UpdateTask 1 t1_open] ∧
  filter (λ c, call_target c = 0) (calls w) = [].
Proof.
  apply (sync_first_service_wins (two_services [t1_open] [t1_done]) 0 1 "1"
           t1_open t1_done); reflexivity.
Defined.

(** The scenario of C1 as the spec words it: after the synchronisation both
    services report the task completed and the first service has received
    one update.  On the code the task stays open in the first service, and
    no call reaches that service. *)
Lemma last_writer_wins_counterexample :
  let w := after_sync 0 1 (two_services [t1_open] [t1_done]) in
  ¬ (completed <$> with_id "1" (tasks (services w 0)) = [true] ∧
     completed <$> with_id "1" (tasks (services w 1)) = [true] ∧
     length (filter (λ c, is_update c = true ∧ call_target c = 0) (calls w)) = 1).
Proof. intros w [H _]. vm_compute in H. discriminate H. Qed.

(** C3.  [sync_tasks] leaves the task list of the first service as it was,
    leaves every service other than the second untouched, and makes all its
    [update_task] and [add_task] calls on the second service; when both
    arguments are the same service it makes no call at all.  So nothing that
    is only in the second service ever reaches the first. *)
Theorem sync_tasks_frame (sv : service_ref → MockTaskService)
    (r1 r2 : service_ref) :
  let w := after_sync r1 r2 sv in
  tasks (services w r1) = tasks (sv r1) ∧
  (∀ r, r ≠ r2 → services w r = sv r) ∧
  Forall (λ c, call_target c = r2) (calls w) ∧
  (r1 = r2 → calls w = []).
Proof.
  intros w. split_and!.
  - destruct (decide (r1 = r2)) as [->|Hne].
    + apply sync_tasks_same_service.
    + unfold w. by rewrite sync_tasks_others.
  - intros r Hr. by apply sync_tasks_others.
  - apply Forall_forall. intros c. apply sync_tasks_targets.
  - intros ->. apply sync_tasks_same_service.
Qed.




(** C4, as the code has it.  When the ids of the second service are pairwise
    distinct, a second run right after the first makes no call and changes
    no task list. *)
Theorem sync_tasks_idempotent sv r1 r2 :
  NoDup (ids (tasks (sv r2))) →
  let w1 := after_sync r1 r2 sv in
  let w2 := after_sync r1 r2 (services w1) in
  run (sync_tasks r1 r2) sv = (Ok tt, w1) ∧
  run (sync_tasks r1 r2) (services w1) = (Ok tt, w2) ∧
  calls w2 = [] ∧
  ∀ r, tasks (services w2 r) = tasks (services w1 r).
Proof.
  intros Hnd w1 w2. split; [apply sync_tasks_ok|]. split; [apply sync_tasks_ok|].
  destruct (sync_tasks_run (services w1) r1 r2) as (w & Hrun & Ht & _ & Ho & Hc).
  assert (w2 = w) as -> by by apply after_sync_run.
  rewrite Hc.
  assert (∀ r, r ≠ r2 → tasks (services w r) = tasks (services w1 r)) as Hot
    by (by intros r Hr; rewrite Ho).
  destruct (loop_quiet r2 (dict_by_id (tasks (services w1 r2)))
              (dict_by_id (tasks (services w1 r1)))
              (tasks (services w1 r2))) as [Hq1 Hq2].
  - intros k t Hin. apply dict_by_id_item in Hin.
    destruct (decide (r1 = r2)) as [->|Hne]; [by exists t|].
    destruct (sync_tasks_by_id sv r1 r2 k) as [Hv _]. fold w1 in Hv.
    unfold w1 in Hin. rewrite sync_tasks_others in Hin by done. fold w1.
    rewrite dict_by_id_get, Hv, Hin.
    destruct (dict_get k (dict_by_id (tasks (sv r2)))) as [t2|] eqn:E.
    + apply dict_by_id_get_Some in E as Hm. destruct Hm as [<- Hin2].
      rewrite (with_id_unique _ _ Hnd Hin2). simpl.
      destruct (bool_decide (completed t = completed t2)) eqn:Hb; simpl.
      * exists t2. by apply bool_decide_eq_true in Hb.
      * by exists t.
    + apply dict_by_id_get_None, with_id_nil in E. rewrite E. by exists t.
  - split; [exact Hq1|]. intros r.
    destruct (decide (r = r2)) as [->|Hr]; [|by apply Hot].
    rewrite Ht. exact Hq2.
Qed.

Lemma sync_tasks_idempotent_witness :
  let w1 := after_sync 0 1 (two_services [t1_open] [t1_done]) in
  let w2 := after_sync 0 1 (services w1) in
  run (sync_tasks 0 1) (two_services [t1_open] [t1_done]) = (Ok tt, w1) ∧
  run (sync_tasks 0 1) (services w1) = (Ok tt, w2) ∧
  calls w2 = [] ∧
  ∀ r, tasks (services w2 r) = tasks (services w1 r).
Proof.
  apply (sync_tasks_idempotent (two_services [t1_open] [t1_done]) 0 1).
  vm_compute. apply NoDup_singleton.
Defined.

(** Idempotence for every pair of states fails when the second service lists
    an id twice: the dictionary holds the last entry, [update_task] replaces
    the first, and the second run repeats the update of the first run. *)
Lemma idempotence_counterexample :
  let sv := two_services [t1_done] [t1_done; t1_open] in
  let w1 := after_sync 0 1 sv in
  run (sync_tasks 0 1) sv = (Ok tt, w1) ∧
  calls (after_sync 0 1 (services w1)) ≠ [].
Proof. split; [reflexivity|]. vm_compute. discriminate. Qed.

(** C5, as the code has it.  For an id that both dictionaries hold, the loop
    issues an update, once and with the task of the first service, exactly
    when the two tasks differ in [completed]; it issues nothing for that id
    exactly when they agree on it.  Title and due date play no part. *)
Theorem sync_tasks_detects_completed sv r1 r2 i t1 t2 :
  dict_get i (dict_by_id (tasks (sv r1))) = Some t1 →
  dict_get i (dict_by_id (tasks (sv r2))) = Some t2 →
  let w := after_sync r1 r2 sv in
  (calls_for i (calls w) = [UpdateTask r2 t1] ↔ completed t1 ≠ completed t2) ∧
  (calls_for i (calls w) = [] ↔ completed t1 = completed t2).
Proof.
  intros H1 H2 w.
  destruct (sync_tasks_by_id sv r1 r2 i) as [_ Hcs]. fold w in Hcs.
  rewrite Hcs, H1, H2. simpl.
  destruct (bool_decide (completed t1 = completed t2)) eqn:Hb; simpl.
  - apply bool_decide_eq_true in Hb. split; split; done.
  - apply bool_decide_eq_false in Hb. split; split; done.
Qed.

Lemma sync_tasks_detects_completed_witness :
  let w := after_sync 0 1 (two_services [t1_renamed] [t1_done]) in
  (calls_for "1" (calls w) = [UpdateTask 1 t1_renamed] ↔
     completed t1_renamed ≠ completed t1_done) ∧
  (calls_for "1" (calls w) = [] ↔ completed t1_renamed = completed t1_done).
Proof.
  apply (sync_tasks_detects_completed (two_services [t1_renamed] [t1_done]) 0 1
           "1" t1_renamed t1_done); reflexivity.
Defined.

(** Change detection over title, completed and due date would update a task
    that was only renamed.  The code issues no update for it. *)
Lemma change_detection_counterexample :
  let w := after_sync 0 1 (two_services [t1_renamed] [t1_open]) in
  ¬ ((∃ t, UpdateTask 1 t ∈ calls w ∧ task_id t = "1") ↔
     ¬ content_equal t1_renamed t1_open).
Proof.
  intros w [_ H]. destruct H as (t & Hin & _).
  - intros [Hname _]. discriminate Hname.
  - vm_compute in Hin. by apply elem_of_nil in Hin.
Qed.

(** C6, as the code has it.  For an id that the first service has and the
    second has not, the loop issues one [add_task] on the second service and
    nothing else for that id; the task it adds is the one the dictionary of
    the first service holds, that is the last entry with that id in its
    list.  Afterwards the second service has exactly that task under the
    id. *)
Theorem sync_tasks_creates_missing sv r1 r2 i t :
  last (with_id i (tasks (sv r1))) = Some t →
  i ∉ ids (tasks (sv r2)) →
  let w := after_sync r1 r2 sv in
  run (sync_tasks r1 r2) sv = (Ok tt, w) ∧
  calls_for i (calls w) = [AddTask r2 t] ∧
  with_id i (tasks (services w r2)) = [t].
Proof.
  intros H1 H2 w. split; [apply sync_tasks_ok|].
  destruct (sync_tasks_by_id sv r1 r2 i) as [Hv Hcs]. fold w in Hv, Hcs.
  rewrite !dict_by_id_get, H1 in Hv, Hcs.
  apply with_id_nil in H2. rewrite H2 in Hv, Hcs. by split.
Qed.

Lemma sync_tasks_creates_missing_witness :
  let w := after_sync 0 1 (two_services [t1_open; t1_renamed] []) in
  run (sync_tasks 0 1) (two_services [t1_open; t1_renamed] []) = (Ok tt, w) ∧
  calls_for "1" (calls w) = [AddTask 1 t1_renamed] ∧
  with_id "1" (tasks (services w 1)) = [t1_renamed].
Proof.
  apply (sync_tasks_creates_missing (two_services [t1_open; t1_renamed] []) 0 1
           "1" t1_renamed); [reflexivity|]. vm_compute. apply not_elem_of_nil.
Defined.

(** With one task per id in the first service, the task added is the task
    itself. *)
Lemma sync_tasks_creates_missing_unique sv r1 r2 t :
  NoDup (ids (tasks (sv r1))) →
  t ∈ tasks (sv r1) →
  task_id t ∉ ids (tasks (sv r2)) →
  calls_for (task_id t) (calls (after_sync r1 r2 sv)) = [AddTask r2 t] ∧
  with_id (task_id t) (tasks (services (after_sync r1 r2 sv) r2)) = [t].
Proof.
  intros Hnd Hin Hnin.
  destruct (sync_tasks_by_id sv r1 r2 (task_id t)) as [Hv Hcs].
  rewrite (dict_by_id_unique _ _ Hnd Hin) in Hv, Hcs.
  apply dict_by_id_get_None in Hnin as Hget. rewrite Hget in Hv, Hcs.
  apply with_id_nil in Hnin. rewrite Hnin in Hv. by split.
Qed.

(** "Exactly one create with that task, for every task of the first service
    whose id the second lacks" fails for a task that shares its id with a
    later entry of the first service: the later entry is the one added. *)
Lemma create_missing_counterexample :
  let sv := two_services [t1_open; t1_renamed] [] in
  let w := after_sync 0 1 sv in
  ¬ (∀ t, t ∈ tasks (sv 0) → task_id t ∉ ids (tasks (sv 1)) →
       filter (λ c, c = AddTask 1 t) (calls w) = [AddTask 1 t] ∧
       task_id t ∈ ids (tasks (services w 1))).
Proof.
  intros sv w H. destruct (H t1_open) as [Hc _].
  - vm_compute. left.
  - vm_compute. apply not_elem_of_nil.
  - vm_compute in Hc. discriminate Hc.
Qed.

(** * Uniqueness of ids *)

Lemma NoDup_ids_with_id l :
  NoDup (ids l) ↔ ∀ i, length (with_id i l) ≤ 1.
Proof.
  split; [intros Hnd i; by apply with_id_NoDup_length|].
  unfold ids. induction l as [|t l IH]; intros H; csimpl; [apply NoDup_nil_2|].
  apply NoDup_cons_2.
  - specialize (H (task_id t)). rewrite with_id_cons, decide_True in H by done.
    simpl in H. apply with_id_nil. apply nil_length_inv. lia.
  - apply IH. intros i. specialize (H i). rewrite with_id_cons in H.
    destruct (decide (task_id t = i)); simpl in H; lia.
Qed.

Lemma entries_after_length t1 t2 v :
  t2 = last v → length v ≤ 1 → length (entries_after t1 t2 v) ≤ 1.
Proof.
  intros -> Hv. destruct t1 as [task1|]; simpl; [|done].
  destruct v as [|x v]; simpl; [lia|].
  rewrite last_cons. simpl in Hv. destruct v; simpl in *; [|lia].
  destruct (negb (bool_decide (completed task1 = completed x))); simpl; lia.
Qed.

Lemma update_task_NoDup sv r' task r :
  NoDup (ids (tasks (sv r))) →
  NoDup (ids (tasks (services (run (update_task r' task) sv).2 r))).
Proof.
  intros Hnd. unfold run. rewrite update_task_run; simpl.
  destruct (replace_first task (tasks (sv r'))) as [l'|] eqn:E; simpl; [|done].
  destruct (decide (r = r')) as [->|Hne].
  - rewrite fn_lookup_insert; simpl. by rewrite (replace_first_ids _ _ _ E).
  - by rewrite fn_lookup_insert_ne.
Qed.

Lemma sync_tasks_NoDup sv r1 r2 r :
  NoDup (ids (tasks (sv r))) →
  NoDup (ids (tasks (services (after_sync r1 r2 sv) r))).
Proof.
  intros Hnd. destruct (decide (r = r2)) as [->|Hne].
  - apply NoDup_ids_with_id. intros i.
    destruct (sync_tasks_by_id sv r1 r2 i) as [-> _].
    apply entries_after_length; [apply dict_by_id_get|].
    by apply with_id_NoDup_length.
  - by rewrite sync_tasks_others.
Qed.

Lemma add_task_NoDup sv r' task r :
  NoDup (ids (tasks (sv r))) →
  NoDup (ids (tasks (services (run (add_task r' task) sv).2 r))) ↔
  r' ≠ r ∨ task_id task ∉ ids (tasks (sv r)).
Proof.
  intros Hnd. unfold run. rewrite add_task_run; simpl.
  destruct (decide (r = r')) as [->|Hne].
  - rewrite fn_lookup_insert; simpl. unfold ids. rewrite fmap_app; csimpl.
    rewrite NoDup_app. split.
    + intros (_ & H & _). right. intros Hin. apply (H _ Hin). left.
    + intros [?|Hnin]; [done|]. split_and!; [done| |apply NoDup_singleton].
      by intros x Hx ->%list_elem_of_singleton.
  - rewrite fn_lookup_insert_ne by done. split; [left; congruence|done].
Qed.

(** C10, as the code has it.  A service whose ids are pairwise distinct keeps
    them so through [update_task] and through a run of [sync_tasks],
    whichever services these are called on.  [add_task] appends without
    looking: it keeps the ids distinct exactly when it is called on another
    service or with an id the service does not have yet. *)
Theorem operations_keep_ids_distinct sv r :
  NoDup (ids (tasks (sv r))) →
  (∀ r' task,
     NoDup (ids (tasks (services (run (update_task r' task) sv).2 r)))) ∧
  (∀ r1 r2, NoDup (ids (tasks (services (after_sync r1 r2 sv) r)))) ∧
  (∀ r' task,
     NoDup (ids (tasks (services (run (add_task r' task) sv).2 r))) ↔
     r' ≠ r ∨ task_id task ∉ ids (tasks (sv r))).
Proof.
  intros Hnd. split_and!.
  - intros r' task. by apply update_task_NoDup.
  - intros r1 r2. by apply sync_tasks_NoDup.
  - intros r' task. by apply add_task_NoDup.
Qed.

Lemma operations_keep_ids_distinct_witness :
  (∀ r' task,
     NoDup (ids (tasks (services
       (run (update_task r' task) (two_services [t1_open] [t1_done])).2 1)))) ∧
  (∀ r1 r2,
     NoDup (ids (tasks (services
       (after_sync r1 r2 (two_services [t1_open] [t1_done])) 1)))) ∧
  (∀ r' task,
     NoDup (ids (tasks (services
       (run (add_task r' task) (two_services [t1_open] [t1_done])).2 1))) ↔
     r' ≠ 1 ∨ task_id task ∉ ids (tasks (two_services [t1_open] [t1_done] 1))).
Proof.
  apply (operations_keep_ids_distinct (two_services [t1_open] [t1_done]) 1).
  vm_compute. apply NoDup_singleton.
Defined.

(** [add_task] with an id that the service already has leaves two tasks with
    that id. *)
Lemma id_uniqueness_counterexample :
  let sv := two_services [] [t1_open] in
  NoDup (ids (tasks (sv 1))) ∧
  ¬ NoDup (ids (tasks (services (run (add_task 1 t1_done) sv).2 1))).
Proof.
  split; [vm_compute; apply NoDup_singleton|].
  vm_compute. intros [H _]%NoDup_cons. apply H. left.
Qed.

(** * The contract of [update_task] *)

(** C7.  [update_task] raises exactly when no entry of the service's list has
    the id of the given task, and then it raises [SyncError] and leaves every
    service as it was.  When it returns, it has replaced the first entry with
    that id, at its index, and every other entry of the list and every other
    service is unchanged. *)
Theorem update_task_contract (sv : service_ref → MockTaskService)
    (r : service_ref) (task : Task) :
  let res := (run (update_task r task) sv).1 in
  let w := (run (update_task r task) sv).2 in
  (is_ok res = false ↔ task_id task ∉ ids (tasks (sv r))) ∧
  (is_ok res = false →
     (∃ msg, res = Raise (SyncError msg)) ∧ ∀ r', services w r' = sv r') ∧
  (is_ok res = true →
     ∃ k t, tasks (sv r) !! k = Some t ∧ task_id t = task_id task ∧
       (∀ j t', j < k → tasks (sv r) !! j = Some t' →
          task_id t' ≠ task_id task) ∧
       tasks (services w r) = <[k := task]> (tasks (sv r)) ∧
       tasks (services w r) !! k = Some task ∧
       (∀ j, j ≠ k → tasks (services w r) !! j = tasks (sv r) !! j) ∧
       length (tasks (services w r)) = length (tasks (sv r)) ∧
       service_name (services w r) = service_name (sv r) ∧
       (∀ r', r' ≠ r → services w r' = sv r')).
Proof.
  unfold run. rewrite update_task_run. simpl.
  destruct (replace_first task (tasks (sv r))) as [l'|] eqn:E; simpl.
  - split_and!.
    + split; [done|]. intros Hn. apply replace_first_None in Hn. congruence.
    + done.
    + intros _. rewrite fn_lookup_insert; simpl.
      destruct (replace_first_index _ _ _ E) as (k & t & Hk & Hid & Hfirst & ->).
      exists k, t. split_and!; try done.
      * apply list_lookup_insert_eq. by eapply lookup_lt_Some.
      * intros j Hj. by apply list_lookup_insert_ne.
      * apply length_insert.
      * intros r' Hr'. by rewrite fn_lookup_insert_ne.
  - split_and!.
    + split; [|done]. intros _. by apply replace_first_None.
    + intros _. split; [by eexists|done].
    + done.
Qed.

(** * Serialisation *)

Lemma digit_value_digit n : (n < 10)%N → digit_value (digit n) = Some n.
Proof.
  intros Hn. unfold digit_value, digit.
  rewrite N_ascii_embedding by lia.
  replace ((48 <=? 48 + n) && (48 + n <=? 57))%N with true.
  - f_equal. lia.
  - symmetry. apply andb_true_intro. split; apply N.leb_le; lia.
Qed.

Lemma parse_digits_app acc l1 l2 :
  parse_digits acc (l1 ++ l2) = a ← parse_digits acc l1; parse_digits a l2.
Proof.
  revert acc. induction l1 as [|c l1 IH]; intros acc; simpl; [done|].
  destruct (digit_value c); simpl; [apply IH|done].
Qed.

Lemma parse_low_digits w n acc :
  (n < 10 ^ N.of_nat w)%N →
  parse_digits acc (low_digits w n) = Some (acc * 10 ^ N.of_nat w + n)%N.
Proof.
  revert n acc. induction w as [|w IH]; intros n acc Hn.
  - simpl in *. f_equal. lia.
  - rewrite Nat2N.inj_succ, N.pow_succ_r' in *. cbn [low_digits].
    pose proof (N.div_mod n 10 ltac:(lia)) as Hdm.
    pose proof (N.mod_lt n 10 ltac:(lia)) as Hlt.
    assert (n / 10 < 10 ^ N.of_nat w)%N as Hq
      by (apply N.Div0.div_lt_upper_bound; lia).
    rewrite parse_digits_app, IH by done. simpl.
    rewrite digit_value_digit by done. simpl. f_equal. lia.
Qed.

Lemma low_digits_length w n : length (low_digits w n) = w.
Proof.
  revert n. induction w as [|w IH]; intros n; simpl; [done|].
  rewrite length_app, IH. simpl. lia.
Qed.

Lemma fmt_0d_small w n :
  (n < 10 ^ N.of_nat w)%N → fmt_0d w n = low_digits w n.
Proof. intros Hn. unfold fmt_0d. apply N.ltb_lt in Hn. by rewrite Hn. Qed.

Lemma low_digits_2 n :
  low_digits 2 n = [digit (n / 10 mod 10)%N; digit (n mod 10)%N].
Proof. reflexivity. Qed.

Lemma low_digits_4 n :
  low_digits 4 n =
  [digit (n / 10 / 10 / 10 mod 10)%N; digit (n / 10 / 10 mod 10)%N;
   digit (n / 10 mod 10)%N; digit (n mod 10)%N].
Proof. reflexivity. Qed.

Lemma days_in_month_le y m : (days_in_month y m <= 31)%N.
Proof.
  unfold days_in_month. repeat case_match; lia.
Qed.

Lemma valid_datetime_bounds d :
  valid_datetime d = true →
  (year d < 10000 ∧ month d < 100 ∧ day d < 100 ∧ hour d < 100 ∧
   minute d < 100 ∧ second d < 100 ∧ microsecond d < 1000000)%N.
Proof.
  unfold valid_datetime. rewrite !andb_true_iff, !N.leb_le, !N.ltb_lt.
  pose proof (days_in_month_le (year d) (month d)). lia.
Qed.

Lemma parse_fraction_microsecond us :
  (us < 1000000)%N →
  parse_fraction
    (if (us =? 0)%N then [] else ["."%char] ++ fmt_0d 6 us) = Some us.
Proof.
  intros Hus. destruct (us =? 0)%N eqn:E.
  - apply N.eqb_eq in E. by subst.
  - rewrite fmt_0d_small by done. cbn [app parse_fraction].
    rewrite low_digits_length. rewrite !bool_decide_eq_true_2 by done.
    cbn [andb]. by rewrite parse_low_digits.
Qed.

(** Reading back what [isoformat] wrote. *)
Lemma fromisoformat_isoformat d :
  valid_datetime d = true → fromisoformat (isoformat d) = Some d.
Proof.
  intros Hv. destruct (valid_datetime_bounds d Hv) as (Hy & Hm & Hd & Hh & Hn & Hs & Hu).
  unfold fromisoformat, isoformat.
  rewrite String.list_ascii_of_string_of_list_ascii. unfold isoformat_chars.
  rewrite (fmt_0d_small 4), !(fmt_0d_small 2) by done.
  rewrite low_digits_4, !low_digits_2. cbn [app].
  rewrite !bool_decide_eq_true_2 by done. cbn [andb].
  rewrite <- low_digits_4, <- !low_digits_2.
  rewrite !parse_low_digits by done. cbn [mbind option_bind].
  rewrite parse_fraction_microsecond by done. cbn [mbind option_bind].
  rewrite !N.mul_0_l, !N.add_0_l.
  destruct d; simpl in *. by rewrite Hv.
Qed.

Lemma to_dict_dated t d :
  due_date t = Some d →
  to_dict t =
  Ok [("task_id", PyStr (task_id t)); ("name", PyStr (name t));
      ("completed", PyBool (completed t)); ("due_date", PyStr (isoformat d))].
Proof. intros H. unfold to_dict. rewrite H. reflexivity. Qed.

Lemma from_dict_fields i n c s :
  from_dict [("task_id", PyStr i); ("name", PyStr n);
             ("completed", PyBool c); ("due_date", PyStr s)] =
  match fromisoformat s with
  | Some dt => Ok (mk_Task i n c (Some dt))
  | None => Raise (ValueError ("Invalid isoformat string: " +:+ s))
  end.
Proof. reflexivity. Qed.

(** C8, as the code has it.  A task that has a due date (a naive datetime,
    within the range of the class) serialises to a dictionary, and reading
    that dictionary back gives the task itself: id, name, completion flag
    and due date all survive.  A task without a due date has no dictionary
    to read back. *)
Theorem to_dict_round_trip t :
  valid_task t → is_Some (due_date t) →
  ∃ d, to_dict t = Ok d ∧ from_dict d = Ok t.
Proof.
  intros Hv [dt E]. eexists. split; [by apply to_dict_dated|].
  rewrite from_dict_fields, fromisoformat_isoformat by by apply Hv.
  destruct t; simpl in *. by rewrite E.
Qed.

Lemma to_dict_round_trip_witness :
  ∃ d, to_dict t1_open = Ok d ∧ from_dict d = Ok t1_open.
Proof.
  apply (to_dict_round_trip t1_open).
  - intros d [= <-]. reflexivity.
  - by eexists.
Defined.

(** The round trip for every task fails on a task built without a due date:
    [to_dict] raises, so no dictionary comes out that could be read back. *)
Lemma round_trip_counterexample :
  ¬ ∃ d, to_dict t1_undated = Ok d ∧ from_dict d = Ok t1_undated.
Proof. intros (d & Hd & _). discriminate Hd. Qed.

(** C9, as the code has it.  [to_dict] returns a dictionary for every task
    that has a due date, and raises [AttributeError] for a task whose due
    date is [None]. *)
Theorem to_dict_needs_due_date t :
  (∀ dt, due_date t = Some dt → ∃ d, to_dict t = Ok d) ∧
  (due_date t = None → ∃ msg, to_dict t = Raise (AttributeError msg)) ∧
  ((∃ d, to_dict t = Ok d) ↔ due_date t ≠ None).
Proof.
  unfold to_dict. destruct (due_date t) as [dt|].
  - split_and!; [by eexists|done|]. split; [done|]. by eexists.
  - split_and!; [done|by eexists|]. split; [|done]. by intros [d ?].
Qed.

(** A task built without a due date: [to_dict] raises. *)
Lemma to_dict_total_counterexample :
  ¬ ∃ d, to_dict t1_undated = Ok d.
Proof. intros [d H]. discriminate H. Qed.

(** * Further properties of [sync_tasks] *)

Lemma dict_set_length {V} k (v : V) (d : dict V) :
  length (dict_set k v d) ≤ S (length d).
Proof.
  induction d as [|[k0 v0] d IH]; simpl; [lia|].
  destruct (decide (k0 = k)); simpl; lia.
Qed.

Lemma dict_by_id_acc_length l (d : dict Task) :
  length (foldl (λ d task, dict_set (task_id task) task d) d l) ≤
  length d + length l.
Proof.
  revert d. induction l as [|t l IH]; intros d; simpl; [lia|].
  specialize (IH (dict_set (task_id t) t d)).
  pose proof (dict_set_length (task_id t) t d). lia.
Qed.

Lemma dict_by_id_item_elem k t l :
  (k, t) ∈ dict_by_id l → task_id t = k ∧ t ∈ l.
Proof. intros Hin. by apply dict_by_id_item, dict_by_id_get_Some in Hin. Qed.

Lemma dict_by_id_distinct l :
  NoDup (ids l) → dict_by_id l = (λ t, (task_id t, t)) <$> l.
Proof.
  unfold dict_by_id.
  assert (∀ (d : dict Task),
    NoDup (dict_keys d ++ ids l) →
    foldl (λ d task, dict_set (task_id task) task d) d l =
    d ++ ((λ t, (task_id t, t)) <$> l)) as Hacc.
  { induction l as [|t l IH]; intros d Hnd; csimpl.
    - by rewrite app_nil_r.
    - assert (dict_set (task_id t) t d = d ++ [(task_id t, t)]) as Hset.
      { clear IH. unfold ids in Hnd. csimpl in Hnd.
        apply NoDup_app in Hnd as (_ & Hd & _).
        induction d as [|[k0 v0] d IHd]; csimpl; [done|].
        rewrite decide_False.
        - f_equal. apply IHd. intros x Hx. apply Hd. by right.
        - intros ->. apply (Hd (task_id t)); left. }
      rewrite Hset, IH.
      + by rewrite <- app_assoc.
      + unfold dict_keys, ids in *. rewrite fmap_app. csimpl.
        by rewrite <- app_assoc. }
  intros Hnd. by apply (Hacc []).
Qed.

Lemma calls_after_length r2 t1 t2 : length (calls_after r2 t1 t2) ≤ 1.
Proof.
  unfold calls_after. destruct t1 as [task1|]; [|simpl; lia].
  destruct t2 as [task2|]; [|simpl; lia].
  destruct (negb (bool_decide (completed task1 = completed task2))); simpl; lia.
Qed.

Lemma item_calls_task r2 tasks2 item c :
  c ∈ item_calls r2 tasks2 item → call_task c = item.2.
Proof.
  unfold item_calls. destruct (dict_get item.1 tasks2) as [task2|].
  - destruct (negb (bool_decide (completed item.2 = completed task2))).
    + by intros ->%list_elem_of_singleton.
    + by intros ?%elem_of_nil.
  - by intros ->%list_elem_of_singleton.
Qed.

Lemma item_calls_length r2 tasks2 item :
  length (item_calls r2 tasks2 item) ≤ 1.
Proof.
  unfold item_calls. destruct (dict_get item.1 tasks2) as [task2|]; [|simpl; lia].
  destruct (negb (bool_decide (completed item.2 = completed task2))); simpl; lia.
Qed.

Lemma bind_item_calls_length r2 tasks2 (items : dict Task) :
  length (items ≫= item_calls r2 tasks2) ≤ length items.
Proof.
  induction items as [|item items IH]; csimpl; [lia|].
  rewrite length_app. pose proof (item_calls_length r2 tasks2 item). lia.
Qed.

Lemma foldl_item_effect_ids tasks2 (items : dict Task) l :
  (∀ k t, (k, t) ∈ items → task_id t = k) →
  ids (foldl (item_effect tasks2) l items) =
  ids l ++ filter (λ k, dict_get k tasks2 = None) (dict_keys items).
Proof.
  revert l. induction items as [|[k t] items IH]; intros l Hitems; csimpl.
  - by rewrite app_nil_r.
  - rewrite IH by (intros k' t' Hin; apply Hitems; by right).
    rewrite item_effect_ids, filter_cons. simpl.
    rewrite (Hitems k t) by left.
    destruct (dict_get k tasks2) as [task2|] eqn:E.
    + rewrite decide_False by done. by rewrite app_nil_r.
    + rewrite decide_True by done. by rewrite <- app_assoc.
Qed.

(** The ids of the second service after the run: those it had, in place,
    followed by the ids only the first service had, in dictionary order. *)
Lemma sync_tasks_ids sv r1 r2 :
  ids (tasks (services (after_sync r1 r2 sv) r2)) =
  ids (tasks (sv r2)) ++
  filter (λ k, k ∉ ids (tasks (sv r2))) (dict_keys (dict_by_id (tasks (sv r1)))).
Proof.
  destruct (sync_tasks_run sv r1 r2) as (w & Hrun & Ht & _).
  rewrite (after_sync_run _ _ _ _ Hrun), Ht.
  rewrite foldl_item_effect_ids by (intros k t; apply dict_by_id_item_elem).
  f_equal. apply list_filter_iff. intros k. apply dict_by_id_get_None.
Qed.

Lemma sync_tasks_has_ids sv r1 r2 i :
  i ∈ ids (tasks (sv r1)) →
  i ∈ ids (tasks (services (after_sync r1 r2 sv) r2)).
Proof.
  intros Hin. rewrite sync_tasks_ids, elem_of_app, list_elem_of_filter.
  rewrite dict_by_id_keys.
  destruct (decide (i ∈ ids (tasks (sv r2)))); [by left|by right].
Qed.

Lemma entries_after_elem t1 t2 v t :
  t ∈ entries_after t1 t2 v → t ∈ v ∨ t1 = Some t.
Proof.
  unfold entries_after. destruct t1 as [task1|]; [|by left].
  destruct t2 as [task2|].
  - destruct (negb (bool_decide (completed task1 = completed task2))); [|by left].
    intros [->|Hin]%elem_of_cons; [by right|].
    left. destruct v; [done|]. by right.
  - intros [?| ->%list_elem_of_singleton]%elem_of_app; [by left|by right].
Qed.

(** Every task of the second service after the run was in one of the two
    services before. *)
Lemma sync_tasks_origin sv r1 r2 t :
  t ∈ tasks (services (after_sync r1 r2 sv) r2) →
  t ∈ tasks (sv r1) ∨ t ∈ tasks (sv r2).
Proof.
  intros Hin.
  assert (t ∈ with_id (task_id t) (tasks (services (after_sync r1 r2 sv) r2)))
    as Hv by by apply elem_of_with_id.
  destruct (sync_tasks_by_id sv r1 r2 (task_id t)) as [Heq _].
  rewrite Heq in Hv. apply entries_after_elem in Hv as [Hv|Hv].
  - right. by apply elem_of_with_id in Hv as [_ ?].
  - left. by apply dict_by_id_get_Some in Hv as [_ ?].
Qed.

(** With distinct ids on both sides, tasks with the same id agree on
    [completed] after the run. *)
Lemma sync_tasks_agree sv r1 r2 t1 t2 :
  NoDup (ids (tasks (sv r1))) →
  NoDup (ids (tasks (sv r2))) →
  t1 ∈ tasks (sv r1) →
  t2 ∈ tasks (services (after_sync r1 r2 sv) r2) →
  task_id t1 = task_id t2 →
  completed t1 = completed t2.
Proof.
  intros Hnd1 Hnd2 Hin1 Hin2 Hid.
  assert (t2 ∈ with_id (task_id t1) (tasks (services (after_sync r1 r2 sv) r2)))
    as Hin by by apply elem_of_with_id.
  destruct (sync_tasks_by_id sv r1 r2 (task_id t1)) as [Hv _].
  rewrite Hv, (dict_by_id_unique _ _ Hnd1 Hin1) in Hin.
  destruct (dict_get (task_id t1) (dict_by_id (tasks (sv r2)))) as [t2'|] eqn:E.
  - apply dict_by_id_get_Some in E as Hm. destruct Hm as [Hid' Hin'].
    rewrite <- Hid', (with_id_unique _ _ Hnd2 Hin') in Hin. simpl in Hin.
    destruct (bool_decide (completed t1 = completed t2')) eqn:Hb; simpl in Hin.
    + apply list_elem_of_singleton in Hin as ->. by apply bool_decide_eq_true in Hb.
    + by apply list_elem_of_singleton in Hin as ->.
  - apply dict_by_id_get_None, with_id_nil in E. rewrite E in Hin. simpl in Hin.
    by apply list_elem_of_singleton in Hin as ->.
Qed.

(** ** The dictionary [sync_tasks] builds from a task list *)

(** X13.  [{task.task_id: task for task in l}] has every id of the list once
    as a key and no other key, maps an id to the last task of the list with
    that id, and is never longer than the list; when the ids of the list are
    pairwise distinct it pairs each task with its id, in list order. *)
Theorem dict_by_id_last_wins (l : list Task) :
  NoDup (dict_keys (dict_by_id l)) ∧
  (∀ i, i ∈ dict_keys (dict_by_id l) ↔ i ∈ ids l) ∧
  (∀ i, dict_get i (dict_by_id l) = last (with_id i l)) ∧
  length (dict_by_id l) ≤ length l ∧
  (NoDup (ids l) → dict_by_id l = (λ t, (task_id t, t)) <$> l).
Proof.
  split_and!.
  - apply dict_by_id_NoDup.
  - intros i. apply dict_by_id_keys.
  - intros i. apply dict_by_id_get.
  - apply (dict_by_id_acc_length l []).
  - apply dict_by_id_distinct.
Qed.

(** ** What a run does and does not do *)

(** X1.  On mock services [sync_tasks] never raises: each [update_task] it
    issues is for an id that the second service still has. *)
Theorem sync_tasks_never_raises (sv : service_ref → MockTaskService)
    (r1 r2 : service_ref) :
  (run (sync_tasks r1 r2) sv).1 = Ok tt.
Proof. by rewrite sync_tasks_ok. Qed.

(** X2.  A run makes at most one call per task id and at most as many calls
    as the first service has tasks, and every task it passes is an entry of
    the first service's list. *)
Theorem sync_tasks_call_bounds (sv : service_ref → MockTaskService)
    (r1 r2 : service_ref) :
  let w := after_sync r1 r2 sv in
  (∀ i, length (calls_for i (calls w)) ≤ 1) ∧
  length (calls w) ≤ length (tasks (sv r1)) ∧
  Forall (λ c, call_task c ∈ tasks (sv r1)) (calls w).
Proof.
  intros w. split_and!.
  - intros i. destruct (sync_tasks_by_id sv r1 r2 i) as [_ Hc]. fold w in Hc.
    rewrite Hc. apply calls_after_length.
  - destruct (sync_tasks_run sv r1 r2) as (w' & Hrun & _ & _ & _ & Hc).
    unfold w. rewrite (after_sync_run _ _ _ _ Hrun), Hc.
    etrans; [apply bind_item_calls_length|].
    apply (dict_by_id_acc_length (tasks (sv r1)) []).
  - destruct (sync_tasks_run sv r1 r2) as (w' & Hrun & _ & _ & _ & Hc).
    unfold w. rewrite (after_sync_run _ _ _ _ Hrun), Hc.
    apply Forall_forall. intros c ([k t] & Hin & Hitem)%list_elem_of_bind.
    apply item_calls_task in Hin. rewrite Hin. simpl.
    by apply dict_by_id_item_elem in Hitem as [_ ?].
Qed.

(** X3.  A run never removes or moves an id of the second service: the ids
    after the run are the ids before, in place, followed by the ids that
    only the first service had, each once, in the order of their first
    occurrence in the first service's dictionary. *)
Theorem sync_tasks_appends_new_ids (sv : service_ref → MockTaskService)
    (r1 r2 : service_ref) :
  let w := after_sync r1 r2 sv in
  let new := filter (λ k, k ∉ ids (tasks (sv r2)))
                    (dict_keys (dict_by_id (tasks (sv r1)))) in
  ids (tasks (services w r2)) = ids (tasks (sv r2)) ++ new ∧
  NoDup new ∧
  length (tasks (services w r2)) = length (tasks (sv r2)) + length new.
Proof.
  intros w new. pose proof (sync_tasks_ids sv r1 r2) as Hids.
  fold w new in Hids. split_and!.
  - exact Hids.
  - apply NoDup_filter, dict_by_id_NoDup.
  - assert (length (ids (tasks (services w r2))) =
            length (ids (tasks (sv r2)) ++ new)) as Hlen by by rewrite Hids.
    unfold ids in Hlen. by rewrite length_app, !length_fmap in Hlen.
Qed.

(** X4.  After a run the second service reflects the first, whatever the
    lists held: for every id of the first service, with [t1] the last entry
    of that id there, the second service has an entry with that id and the
    [completed] of [t1]. *)
Theorem sync_tasks_reflects_first_service sv r1 r2 i t1 :
  last (with_id i (tasks (sv r1))) = Some t1 →
  ∃ t2, t2 ∈ tasks (services (after_sync r1 r2 sv) r2) ∧
    task_id t2 = i ∧ completed t2 = completed t1.
Proof.
  intros H1.
  assert (∃ t2, t2 ∈ with_id i (tasks (services (after_sync r1 r2 sv) r2)) ∧
            completed t2 = completed t1) as (t2 & Hin & Hc).
  { destruct (sync_tasks_by_id sv r1 r2 i) as [-> _].
    rewrite !dict_by_id_get, H1.
    destruct (last (with_id i (tasks (sv r2)))) as [t2|] eqn:E; simpl.
    - destruct (bool_decide (completed t1 = completed t2)) eqn:Hb; simpl.
      + exists t2. split; [by apply last_Some_elem_of|].
        symmetry. by apply bool_decide_eq_true in Hb.
      + exists t1. split; [left|done].
    - exists t1. split; [|done]. apply elem_of_app. right. left. }
  apply elem_of_with_id in Hin as [? ?]. by exists t2.
Qed.

Lemma sync_tasks_reflects_first_service_witness :
  ∃ t2,
    t2 ∈ tasks (services
                  (after_sync 0 1 (two_services [t1_open; t1_done]
                                                [t1_renamed; t1_open])) 1) ∧
    task_id t2 = "1" ∧ completed t2 = completed t1_done.
Proof.
  apply (sync_tasks_reflects_first_service
           (two_services [t1_open; t1_done] [t1_renamed; t1_open]) 0 1 "1"
           t1_done).
  reflexivity.
Defined.



(** X6.  A run makes no call exactly when the dictionary of the second
    service has, for every entry of the dictionary of the first, an entry
    with the same id and the same [completed]; and a run that makes no call
    leaves every task list as it was. *)
Theorem sync_tasks_no_call_iff (sv : service_ref → MockTaskService)
    (r1 r2 : service_ref) :
  let w := after_sync r1 r2 sv in
  (calls w = [] ↔
   ∀ i t1, dict_get i (dict_by_id (tasks (sv r1))) = Some t1 →
     ∃ t2, dict_get i (dict_by_id (tasks (sv r2))) = Some t2 ∧
       completed t1 = completed t2) ∧
  (calls w = [] → ∀ r, tasks (services w r) = tasks (sv r)).
Proof.
  intros w.
  assert (calls w = [] →
    ∀ i t1, dict_get i (dict_by_id (tasks (sv r1))) = Some t1 →
      ∃ t2, dict_get i (dict_by_id (tasks (sv r2))) = Some t2 ∧
        completed t1 = completed t2) as Hquiet.
  { intros Hnil i t1 H1.
    destruct (sync_tasks_by_id sv r1 r2 i) as [_ Hc]. fold w in Hc.
    rewrite Hnil, H1 in Hc. simpl in Hc.
    destruct (dict_get i (dict_by_id (tasks (sv r2)))) as [t2|]; [|done].
    destruct (bool_decide (completed t1 = completed t2)) eqn:Hb; [|done].
    exists t2. split; [done|]. by apply bool_decide_eq_true in Hb. }
  destruct (sync_tasks_run sv r1 r2) as (w' & Hrun & Ht & _ & Ho & Hc).
  assert (w = w') as Hw by by apply after_sync_run.
  assert ((∀ i t1, dict_get i (dict_by_id (tasks (sv r1))) = Some t1 →
             ∃ t2, dict_get i (dict_by_id (tasks (sv r2))) = Some t2 ∧
               completed t1 = completed t2) →
          calls w = [] ∧ ∀ r, tasks (services w r) = tasks (sv r)) as Hback.
  { intros Hall. rewrite Hw, Hc.
    destruct (loop_quiet r2 (dict_by_id (tasks (sv r2)))
                (dict_by_id (tasks (sv r1))) (tasks (sv r2))) as [Hq1 Hq2].
    - intros k t Hin. apply Hall. by apply dict_by_id_item.
    - split; [done|]. intros r. destruct (decide (r = r2)) as [->|Hne].
      + by rewrite Ht.
      + by rewrite Ho. }
  split.
  - split; [exact Hquiet|]. intros Hall. by apply Hback.
  - intros Hnil. by apply Hback, Hquiet.
Qed.

(** X7.  A run creates no task of its own: every task of the second service
    after the run was in the first or in the second service before. *)
Theorem sync_tasks_no_new_tasks (sv : service_ref → MockTaskService)
    (r1 r2 : service_ref) :
  Forall (λ t, t ∈ tasks (sv r1) ∨ t ∈ tasks (sv r2))
         (tasks (services (after_sync r1 r2 sv) r2)).
Proof. apply Forall_forall. intros t. apply sync_tasks_origin. Qed.

(** X8.  One run in each direction.  With pairwise distinct ids in both
    services, [sync_tasks a b] followed by [sync_tasks b a] leaves the two
    services with the same ids, distinct within each service, and with the
    same [completed] for each id; the second run only adds tasks, it updates
    none. *)
Theorem sync_both_directions sv r1 r2 :
  NoDup (ids (tasks (sv r1))) →
  NoDup (ids (tasks (sv r2))) →
  let w1 := after_sync r1 r2 sv in
  let w2 := after_sync r2 r1 (services w1) in
  (∀ i, i ∈ ids (tasks (services w2 r1)) ↔ i ∈ ids (tasks (services w2 r2))) ∧
  (∀ t1 t2, t1 ∈ tasks (services w2 r1) → t2 ∈ tasks (services w2 r2) →
     task_id t1 = task_id t2 → completed t1 = completed t2) ∧
  Forall (λ c, is_update c = false) (calls w2) ∧
  NoDup (ids (tasks (services w2 r1))) ∧
  NoDup (ids (tasks (services w2 r2))).
Proof.
  intros Hnd1 Hnd2 w1 w2.
  assert (NoDup (ids (tasks (services w1 r1)))) as Hn1 by by apply sync_tasks_NoDup.
  assert (NoDup (ids (tasks (services w1 r2)))) as Hn2 by by apply sync_tasks_NoDup.
  assert (NoDup (ids (tasks (services w2 r1)))) as Hm1 by by apply sync_tasks_NoDup.
  assert (NoDup (ids (tasks (services w2 r2)))) as Hm2 by by apply sync_tasks_NoDup.
  destruct (decide (r1 = r2)) as [->|Hne].
  { split_and!; try done.
    - intros t1 t2 Hin1 Hin2 Hid.
      apply (with_id_unique _ _ Hm1) in Hin1, Hin2.
      rewrite Hid, Hin2 in Hin1. by injection Hin1 as ->.
    - destruct (sync_tasks_same_service (services w1) r2) as [Hc _].
      fold w2 in Hc. rewrite Hc. constructor. }
  assert (services w1 r1 = sv r1) as H11 by by apply sync_tasks_others.
  assert (services w2 r2 = services w1 r2) as H22 by by apply sync_tasks_others.
  split_and!; try done.
  - intros i. unfold w2 at 1. rewrite sync_tasks_ids, H22.
    rewrite elem_of_app, list_elem_of_filter, dict_by_id_keys. split.
    + intros [Hin|[_ ?]]; [|done]. rewrite H11 in Hin. by apply sync_tasks_has_ids.
    + intros Hin. destruct (decide (i ∈ ids (tasks (services w1 r1)))); [by left|by right].
  - intros t1 t2 Hin1 Hin2 Hid. symmetry.
    rewrite H22 in Hin2.
    by apply (sync_tasks_agree (services w1) r2 r1 t2 t1).
  - apply Forall_forall. intros c Hin.
    assert (c ∈ calls_for (task_id (call_task c)) (calls w2)) as Hc
      by by apply list_elem_of_filter.
    destruct (sync_tasks_by_id (services w1) r2 r1 (task_id (call_task c)))
      as [_ Heq]. fold w2 in Heq. rewrite Heq in Hc. clear Heq.
    unfold calls_after in Hc.
    destruct (dict_get _ (dict_by_id (tasks (services w1 r2)))) as [t2|] eqn:E2;
      [|by apply elem_of_nil in Hc].
    destruct (dict_get _ (dict_by_id (tasks (services w1 r1)))) as [t1|] eqn:E1;
      [|by apply list_elem_of_singleton in Hc as ->].
    apply dict_by_id_get_Some in E1 as [Hid1 Hin1].
    apply dict_by_id_get_Some in E2 as [Hid2 Hin2].
    rewrite H11 in Hin1.
    assert (completed t1 = completed t2) as Hagree
      by (apply (sync_tasks_agree sv r1 r2); [done..|congruence]).
    rewrite bool_decide_eq_true_2 in Hc by done.
    by apply elem_of_nil in Hc.
Qed.

Lemma sync_both_directions_witness :
  let w1 := after_sync 0 1 (two_services [t1_open] []) in
  let w2 := after_sync 1 0 (services w1) in
  (∀ i, i ∈ ids (tasks (services w2 0)) ↔ i ∈ ids (tasks (services w2 1))) ∧
  (∀ t1 t2, t1 ∈ tasks (services w2 0) → t2 ∈ tasks (services w2 1) →
     task_id t1 = task_id t2 → completed t1 = completed t2) ∧
  Forall (λ c, is_update c = false) (calls w2) ∧
  NoDup (ids (tasks (services w2 0))) ∧
  NoDup (ids (tasks (services w2 1))).
Proof.
  apply (sync_both_directions (two_services [t1_open] []) 0 1).
  - vm_compute. apply NoDup_singleton.
  - vm_compute. apply NoDup_nil_2.
Defined.

(** * Composing the service methods *)

Lemma replace_first_app task pre x post :
  task_id task ∉ ids pre →
  task_id x = task_id task →
  replace_first task (pre ++ x :: post) = Some (pre ++ task :: post).
Proof.
  unfold ids. induction pre as [|t pre IH]; csimpl; intros Hpre Hx.
  - by rewrite decide_True.
  - apply not_elem_of_cons in Hpre as [Hne Hpre].
    rewrite decide_False by congruence. by rewrite IH.
Qed.

Lemma replace_first_app_l task l l1 k :
  replace_first task l = Some l1 → replace_first task (l ++ k) = Some (l1 ++ k).
Proof.
  intros (pre & x & post & -> & Hx & Hpre & ->)%replace_first_Some.
  rewrite <- !app_assoc. simpl. by apply replace_first_app.
Qed.

Lemma replace_first_again t t' l l' :
  task_id t = task_id t' →
  replace_first t l = Some l' →
  replace_first t' l' = replace_first t' l.
Proof.
  intros Hid (pre & x & post & -> & Hx & Hpre & ->)%replace_first_Some.
  rewrite Hid in Hpre.
  rewrite !replace_first_app; [done|done|congruence|done|done].
Qed.

(** X9.  Two updates of the same id in a row: the last one wins.  Updating
    with [t] and then with [t'], both of one id, gives the result and the
    services of updating with [t'] alone, whether the id is there (both
    succeed) or not (the same [SyncError]). *)
Theorem update_task_last_wins sv r t t' :
  task_id t = task_id t' →
  (run (update_task r t;; update_task r t') sv).1 =
    (run (update_task r t') sv).1 ∧
  ∀ r', services (run (update_task r t;; update_task r t') sv).2 r' =
        services (run (update_task r t') sv).2 r'.
Proof.
  intros Hid. unfold run, mbind, M_bind, bind.
  rewrite !update_task_run. simpl.
  destruct (replace_first t (tasks (sv r))) as [l'|] eqn:E; simpl.
  - rewrite update_task_run. simpl. rewrite fn_lookup_insert. simpl.
    rewrite (replace_first_again t t' _ _ Hid E).
    destruct (replace_first t' (tasks (sv r))) as [l2|] eqn:E2; simpl.
    + split; [done|]. intros r'. destruct (decide (r' = r)) as [->|Hne].
      * by rewrite !fn_lookup_insert.
      * by rewrite !fn_lookup_insert_ne.
    + apply replace_first_None in E2. rewrite <- Hid in E2.
      apply replace_first_None in E2. congruence.
  - apply replace_first_None in E. rewrite Hid in E.
    apply replace_first_None in E. rewrite E. simpl. by rewrite Hid.
Qed.

Lemma update_task_last_wins_witness :
  (run (update_task 1 t1_done;; update_task 1 t1_renamed)
       (two_services [] [t1_open])).1 =
    (run (update_task 1 t1_renamed) (two_services [] [t1_open])).1 ∧
  ∀ r', services (run (update_task 1 t1_done;; update_task 1 t1_renamed)
                      (two_services [] [t1_open])).2 r' =
        services (run (update_task 1 t1_renamed) (two_services [] [t1_open])).2 r'.
Proof.
  apply (update_task_last_wins (two_services [] [t1_open]) 1 t1_done t1_renamed).
  reflexivity.
Defined.

(** X10.  [add_task] followed by [update_task] for the same id never raises.
    When the service did not have the id, the list ends with the updating
    task in place of the added one.  When it had the id, the update lands on
    the earlier entry, as it would without the [add_task], and the added task
    stays at the end as a second entry with that id. *)
Theorem add_then_update sv r t t' :
  task_id t' = task_id t →
  let w := (run (add_task r t;; update_task r t') sv).2 in
  (run (add_task r t;; update_task r t') sv).1 = Ok tt ∧
  (task_id t ∉ ids (tasks (sv r)) →
     tasks (services w r) = tasks (sv r) ++ [t']) ∧
  (task_id t ∈ ids (tasks (sv r)) →
     tasks (services w r) =
       tasks (services (run (update_task r t') sv).2 r) ++ [t]).
Proof.
  intros Hid. unfold run, mbind, M_bind, bind.
  rewrite add_task_run, !update_task_run. simpl. rewrite fn_lookup_insert. simpl.
  destruct (replace_first t' (tasks (sv r))) as [l1|] eqn:E; simpl.
  - rewrite (replace_first_app_l _ _ _ [t] E). simpl.
    rewrite !fn_lookup_insert. simpl. split_and!; [done| |done].
    intros Hnin. rewrite <- Hid in Hnin. apply replace_first_None in Hnin.
    congruence.
  - apply replace_first_None in E as Hnin.
    rewrite replace_first_app by done. simpl.
    rewrite fn_lookup_insert. simpl. split_and!; [done|done|].
    intros Hin. rewrite <- Hid in Hin. done.
Qed.

Lemma add_then_update_witness :
  let w := (run (add_task 1 t1_open;; update_task 1 t1_done)
                (two_services [] [t1_renamed])).2 in
  (run (add_task 1 t1_open;; update_task 1 t1_done)
       (two_services [] [t1_renamed])).1 = Ok tt ∧
  (task_id t1_open ∉ ids (tasks (two_services [] [t1_renamed] 1)) →
     tasks (services w 1) = tasks (two_services [] [t1_renamed] 1) ++ [t1_done]) ∧
  (task_id t1_open ∈ ids (tasks (two_services [] [t1_renamed] 1)) →
     tasks (services w 1) =
       tasks (services (run (update_task 1 t1_done)
                            (two_services [] [t1_renamed])).2 1) ++ [t1_open]).
Proof.
  apply (add_then_update (two_services [] [t1_renamed]) 1 t1_open t1_done).
  reflexivity.
Defined.

(** X11.  [update_task] never changes which ids a service holds, nor their
    order, nor a service's name, whether it returns or raises. *)
Theorem update_task_keeps_ids (sv : service_ref → MockTaskService)
    (r : service_ref) (task : Task) :
  ∀ r', ids (tasks (services (run (update_task r task) sv).2 r')) =
          ids (tasks (sv r')) ∧
        service_name (services (run (update_task r task) sv).2 r') =
          service_name (sv r').
Proof.
  intros r'. unfold run. rewrite update_task_run. simpl.
  destruct (replace_first task (tasks (sv r))) as [l'|] eqn:E; simpl; [|done].
  destruct (decide (r' = r)) as [->|Hne].
  - rewrite fn_lookup_insert. simpl. by rewrite (replace_first_ids _ _ _ E).
  - by rewrite fn_lookup_insert_ne.
Qed.

(** * More on serialisation *)

Lemma isoformat_inj d1 d2 :
  valid_datetime d1 = true → valid_datetime d2 = true →
  isoformat d1 = isoformat d2 → d1 = d2.
Proof.
  intros H1 H2 Heq. apply fromisoformat_isoformat in H1, H2.
  rewrite Heq in H1. congruence.
Qed.

(** X12.  On tasks with naive due dates [to_dict] loses nothing: two such
    tasks (due dates within the range of [datetime]) that serialise to the
    same dictionary are the same task.  Aware due dates are outside this
    statement: their text keeps only the UTC offset. *)
Theorem to_dict_injective t t' d :
  valid_task t → valid_task t' →
  to_dict t = Ok d → to_dict t' = Ok d → t = t'.
Proof.
  intros Hv Hv' Hd Hd'.
  destruct (due_date t) as [dt|] eqn:E;
    [|unfold to_dict in Hd; rewrite E in Hd; discriminate Hd].
  destruct (due_date t') as [dt'|] eqn:E';
    [|unfold to_dict in Hd'; rewrite E' in Hd'; discriminate Hd'].
  rewrite (to_dict_dated t dt E) in Hd. rewrite (to_dict_dated t' dt' E') in Hd'.
  rewrite <- Hd in Hd'. injection Hd' as Hi Hn Hc Hs.
  apply isoformat_inj in Hs; [|by apply Hv'|by apply Hv].
  destruct t, t'; simpl in *. congruence.
Qed.

Lemma to_dict_injective_witness :
  to_dict t1_open =
    Ok [("task_id", PyStr "1"); ("name", PyStr "Task 1");
        ("completed", PyBool false);
        ("due_date", PyStr "2023-10-01T00:00:00")] ∧
  t1_open = t1_open.
Proof.
  split; [reflexivity|].
  apply (to_dict_injective t1_open t1_open
           [("task_id", PyStr "1"); ("name", PyStr "Task 1");
            ("completed", PyBool false);
            ("due_date", PyStr "2023-10-01T00:00:00")]).
  - intros d [= <-]. reflexivity.
  - intros d [= <-]. reflexivity.
  - reflexivity.
  - reflexivity.
Defined.

(** X19.  After a run, [update_task] on the second service succeeds for every
    task of the first service: the run has made sure the id is there. *)
Theorem update_after_sync_succeeds sv r1 r2 t :
  t ∈ tasks (sv r1) →
  (run (update_task r2 t) (services (after_sync r1 r2 sv))).1 = Ok tt.
Proof.
  intros Hin. unfold run. rewrite update_task_run. simpl.
  destruct (replace_first_is_Some t
              (tasks (services (after_sync r1 r2 sv) r2))) as [l' ->]; [|done].
  apply sync_tasks_has_ids. by apply list_elem_of_fmap_2.
Qed.

Lemma update_after_sync_succeeds_witness :
  (run (update_task 1 t1_open)
       (services (after_sync 0 1 (two_services [t1_open] [])))).1 = Ok tt.
Proof.
  apply (update_after_sync_succeeds (two_services [t1_open] []) 0 1 t1_open).
  vm_compute. left.
Defined.

(** * The program [main] *)

Lemma to_dicts_dated l :
  all_dated l → ∃ ds, to_dicts l = Ok ds ∧ Forall2 (λ t d, to_dict t = Ok d) l ds.
Proof.
  induction 1 as [|t l Ht _ (ds & Hds & Hall)]; simpl.
  - exists []. by split.
  - destruct (due_date t) as [dt|] eqn:E; [|done].
    rewrite (to_dict_dated t dt E), Hds. eexists. split; [done|].
    constructor; [by apply to_dict_dated|done].
Qed.

Lemma to_dicts_undated l :
  ¬ all_dated l →
  to_dicts l =
  Raise (AttributeError "'NoneType' object has no attribute 'isoformat'").
Proof.
  induction l as [|t l IH]; intros Hn; simpl.
  - exfalso. apply Hn. constructor.
  - unfold to_dict at 1. destruct (due_date t) as [dt|] eqn:E; [|done].
    rewrite IH; [done|]. intros Hall. apply Hn. constructor; [|done].
    by rewrite E.
Qed.

Lemma dump_tasks_run r w :
  dump_tasks r w = (to_dicts (tasks (services w r)), w).
Proof. reflexivity. Qed.

(** [sync_tasks] on any world: as [sync_tasks_run], with the calls made so
    far in front. *)
Lemma sync_tasks_run_world w r1 r2 :
  ∃ w', sync_tasks r1 r2 w = (Ok tt, w') ∧
    tasks (services w' r2) =
      foldl (item_effect (dict_by_id (tasks (services w r2))))
            (tasks (services w r2)) (dict_by_id (tasks (services w r1))) ∧
    service_name (services w' r2) = service_name (services w r2) ∧
    (∀ r, r ≠ r2 → services w' r = services w r) ∧
    calls w' =
      calls w ++ (dict_by_id (tasks (services w r1)) ≫=
                  item_calls r2 (dict_by_id (tasks (services w r2)))).
Proof.
  unfold sync_tasks, fetch_tasks, get_tasks, mbind, M_bind, bind; simpl.
  apply for_each_sync_item.
  - intros i. by rewrite dict_by_id_keys.
  - intros k t. apply dict_by_id_item_elem.
Qed.

(** A run started on any world does to the services what the run started
    with an empty call record does, and never raises. *)
Lemma sync_tasks_world w r1 r2 :
  (sync_tasks r1 r2 w).1 = Ok tt ∧
  (∀ r, services (sync_tasks r1 r2 w).2 r =
        services (after_sync r1 r2 (services w)) r) ∧
  calls (sync_tasks r1 r2 w).2 =
    calls w ++ calls (after_sync r1 r2 (services w)).
Proof.
  destruct (sync_tasks_run_world w r1 r2) as (w1 & Hrun1 & Ht1 & Hn1 & Ho1 & Hc1).
  destruct (sync_tasks_run (services w) r1 r2) as (w2 & Hrun2 & Ht2 & Hn2 & Ho2 & Hc2).
  rewrite (after_sync_run _ _ _ _ Hrun2), Hrun1. simpl. split_and!.
  - done.
  - intros r. destruct (decide (r = r2)) as [->|Hne].
    + rewrite <- Ht2 in Ht1. rewrite <- Hn2 in Hn1.
      destruct (services w1 r2), (services w2 r2). simpl in *. congruence.
    + by rewrite Ho1, Ho2.
  - by rewrite Hc1, Hc2.
Qed.

Lemma sync_tasks_keeps_dated sv r1 r2 r :
  all_dated (tasks (sv r1)) → all_dated (tasks (sv r2)) →
  r = r1 ∨ r = r2 →
  all_dated (tasks (services (after_sync r1 r2 sv) r)).
Proof.
  intros H1 H2 Hr. destruct (decide (r = r2)) as [->|Hne].
  - apply Forall_forall. intros t [Hin|Hin]%sync_tasks_origin.
    + by eapply Forall_forall in H1.
    + by eapply Forall_forall in H2.
  - destruct Hr as [-> | ->]; [|done]. by rewrite sync_tasks_others.
Qed.

(** With due dates everywhere the statements run to the end and leave what
    [sync_tasks] leaves. *)
Lemma main_body_dated w r1 r2 :
  all_dated (tasks (services w r1)) →
  all_dated (tasks (services w r2)) →
  main_body r1 r2 w = (Ok tt, (sync_tasks r1 r2 w).2).
Proof.
  intros H1 H2. unfold main_body, mbind, M_bind, bind. rewrite !dump_tasks_run.
  destruct (to_dicts_dated _ H1) as (ds1 & -> & _).
  destruct (to_dicts_dated _ H2) as (ds2 & -> & _).
  destruct (sync_tasks_world w r1 r2) as (Hok & Hsv & _).
  destruct (sync_tasks r1 r2 w) as [res1 w1] eqn:Hrun. simpl in Hok, Hsv.
  subst res1. rewrite !dump_tasks_run.
  destruct (to_dicts_dated (tasks (services w1 r1))) as (ds3 & -> & _).
  { rewrite Hsv. apply sync_tasks_keeps_dated; [done|done|by left]. }
  destruct (to_dicts_dated (tasks (services w1 r2))) as (ds4 & -> & _).
  { rewrite Hsv. apply sync_tasks_keeps_dated; [done|done|by right]. }
  done.
Qed.

(** X14.  The statements of [main] after the constructors, on any two
    services.  They run to the end exactly when every task of both services
    has a due date.  Otherwise the first dump already raises
    [AttributeError]: [sync_tasks] is not reached and nothing has changed.
    When they run to the end, what they leave behind is what [sync_tasks]
    alone leaves behind. *)
Theorem main_body_returns_iff_dated (w : world) (r1 r2 : service_ref) :
  let res := (main_body r1 r2 w).1 in
  let w' := (main_body r1 r2 w).2 in
  (res = Ok tt ↔
     all_dated (tasks (services w r1)) ∧ all_dated (tasks (services w r2))) ∧
  (res ≠ Ok tt → (∃ msg, res = Raise (AttributeError msg)) ∧ w' = w) ∧
  (res = Ok tt → w' = (sync_tasks r1 r2 w).2).
Proof.
  destruct (decide (all_dated (tasks (services w r1)))) as [H1|H1].
  2:{ unfold main_body, mbind, M_bind, bind. rewrite !dump_tasks_run.
      rewrite (to_dicts_undated _ H1). simpl. split_and!.
      - split; [done|]. by intros [? _].
      - intros _. split; [by eexists|done].
      - done. }
  destruct (decide (all_dated (tasks (services w r2)))) as [H2|H2].
  2:{ unfold main_body, mbind, M_bind, bind. rewrite !dump_tasks_run.
      destruct (to_dicts_dated _ H1) as (ds1 & -> & _).
      rewrite (to_dicts_undated _ H2). simpl. split_and!.
      - split; [done|]. by intros [_ ?].
      - intros _. split; [by eexists|done].
      - done. }
  rewrite (main_body_dated w r1 r2 H1 H2). simpl. split_and!; done.
Qed.

(** X15.  [to_dict] over a task list, as [main] uses it: the comprehension
    returns one dictionary per task, in order, exactly when every task has a
    due date; otherwise it raises [AttributeError] and returns nothing, also
    for the tasks that could be serialised. *)
Theorem to_dicts_all_or_nothing (l : list Task) :
  (all_dated l ↔ ∃ ds, to_dicts l = Ok ds) ∧
  (∀ ds, to_dicts l = Ok ds → Forall2 (λ t d, to_dict t = Ok d) l ds) ∧
  (¬ all_dated l → ∃ msg, to_dicts l = Raise (AttributeError msg)).
Proof.
  split_and!.
  - split.
    + intros (ds & Hds & _)%to_dicts_dated. by exists ds.
    + intros [ds Hds]. destruct (decide (all_dated l)) as [|Hn]; [done|].
      rewrite (to_dicts_undated _ Hn) in Hds. discriminate Hds.
  - intros ds Hds. destruct (decide (all_dated l)) as [Hall|Hn].
    + destruct (to_dicts_dated _ Hall) as (ds' & Hds' & HF). congruence.
    + rewrite (to_dicts_undated _ Hn) in Hds. discriminate Hds.
  - intros Hn. rewrite (to_dicts_undated _ Hn). by eexists.
Qed.

Lemma new_service_dated n : all_dated (tasks (new_service n)).
Proof. repeat constructor; done. Qed.

Lemma main_run w r1 r2 :
  main r1 r2 w =
  match main_body r1 r2
          {| services := <[r2 := new_service "Mock Service 2"]>
                           (<[r1 := new_service "Mock Service 1"]> (services w));
             calls := calls w |} with
  | (Ok a, w') => (Ok a, w')
  | (Raise _, w') => (Ok tt, w')
  end.
Proof. reflexivity. Qed.

(** X16.  [main] on any store and any two distinct fresh references: it
    returns without raising, makes no [update_task] or [add_task] call,
    leaves the two new services with the two initial tasks each, and touches
    no other service. *)
Theorem main_runs_clean (w : world) (r1 r2 : service_ref) :
  r1 ≠ r2 →
  (main r1 r2 w).1 = Ok tt ∧
  calls (main r1 r2 w).2 = calls w ∧
  services (main r1 r2 w).2 r1 = new_service "Mock Service 1" ∧
  services (main r1 r2 w).2 r2 = new_service "Mock Service 2" ∧
  ∀ r, r ≠ r1 → r ≠ r2 → services (main r1 r2 w).2 r = services w r.
Proof.
  intros Hne. rewrite main_run.
  set (w0 := {| services := <[r2 := new_service "Mock Service 2"]>
                              (<[r1 := new_service "Mock Service 1"]> (services w));
                calls := calls w |}).
  assert (services w0 r1 = new_service "Mock Service 1") as Hs1.
  { unfold w0; simpl. by rewrite fn_lookup_insert_ne, fn_lookup_insert. }
  assert (services w0 r2 = new_service "Mock Service 2") as Hs2.
  { unfold w0; simpl. by rewrite fn_lookup_insert. }
  rewrite (main_body_dated w0 r1 r2)
    by (rewrite ?Hs1, ?Hs2; apply new_service_dated).
  simpl. set (w' := (sync_tasks r1 r2 w0).2).
  assert (w' = (sync_tasks r1 r2 w0).2) as Hw' by done.
  destruct (sync_tasks_world w0 r1 r2) as (_ & Hsv & Hc). rewrite <- Hw' in Hsv, Hc.
  assert (calls (after_sync r1 r2 (services w0)) = [] ∧
          ∀ r, tasks (services (after_sync r1 r2 (services w0)) r) =
               tasks (services w0 r)) as [Hnil Hsame].
  { destruct (sync_tasks_run (services w0) r1 r2) as (wa & Hra & Hta & _ & Hoa & Hca).
    rewrite (after_sync_run _ _ _ _ Hra), Hca.
    destruct (loop_quiet r2 (dict_by_id (tasks (services w0 r2)))
                (dict_by_id (tasks (services w0 r1)))
                (tasks (services w0 r2))) as [Hq1 Hq2].
    - rewrite Hs1, Hs2. intros k t Hin. vm_compute in Hin.
      apply elem_of_cons in Hin as [[= -> ->]|Hin]; [by eexists|].
      apply list_elem_of_singleton in Hin as [= -> ->]. by eexists.
    - split; [done|]. intros r. destruct (decide (r = r2)) as [->|Hr].
      + by rewrite Hta.
      + by rewrite Hoa. }
  assert (∀ r, services w' r = services w0 r) as Hfin.
  { intros r. rewrite Hsv. destruct (decide (r = r2)) as [->|Hr].
    - destruct (sync_tasks_run (services w0) r1 r2) as (wa & Hra & _ & Hna & _).
      specialize (Hsame r2). rewrite (after_sync_run _ _ _ _ Hra) in *.
      destruct (services wa r2), (services w0 r2). simpl in *. congruence.
    - by apply sync_tasks_others. }
  split_and!.
  - done.
  - by rewrite Hc, Hnil, app_nil_r.
  - by rewrite Hfin.
  - by rewrite Hfin.
  - intros r Hr1 Hr2. rewrite Hfin. unfold w0; simpl.
    by rewrite !fn_lookup_insert_ne.
Qed.

Lemma main_runs_clean_witness :
  (main 0 1 {| services := two_services [t1_undated] []; calls := [] |}).1 = Ok tt ∧
  calls (main 0 1 {| services := two_services [t1_undated] []; calls := [] |}).2 =
    calls {| services := two_services [t1_undated] []; calls := [] |} ∧
  services (main 0 1 {| services := two_services [t1_undated] [];
                        calls := [] |}).2 0 = new_service "Mock Service 1" ∧
  services (main 0 1 {| services := two_services [t1_undated] [];
                        calls := [] |}).2 1 = new_service "Mock Service 2" ∧
  ∀ r, r ≠ 0 → r ≠ 1 →
    services (main 0 1 {| services := two_services [t1_undated] [];
                          calls := [] |}).2 r =
    services {| services := two_services [t1_undated] []; calls := [] |} r.
Proof.
  apply (main_runs_clean {| services := two_services [t1_undated] []; calls := [] |} 0 1).
  discriminate.
Defined.

(** * Services of either class *)

Lemma sync_item_of_mock cls r2 tasks2 item w :
  cls r2 = class_MockTaskService →
  sync_item_of cls r2 tasks2 item w = of_mock (sync_item r2 tasks2 item) w.
Proof.
  intros Hc. destruct item as [k t1]. unfold sync_item_of, sync_item.
  unfold update_task_of, add_task_of. rewrite Hc.
  destruct (dict_get k tasks2) as [task2|]; [|done].
  by destruct (negb (bool_decide (completed t1 = completed task2))).
Qed.

Lemma for_each_of_mock cls r2 tasks2 (items : dict Task) w :
  cls r2 = class_MockTaskService →
  for_each_of items (sync_item_of cls r2 tasks2) w =
  of_mock (for_each items (sync_item r2 tasks2)) w.
Proof.
  intros Hc. revert w. induction items as [|item items IH]; intros w; [done|].
  cbn [for_each_of for_each]. unfold mbind, D_bind, D_then, M_bind, bind.
  rewrite sync_item_of_mock by done. unfold of_mock.
  destruct (sync_item r2 tasks2 item w) as [[[]|e] w1]; [|done].
  rewrite IH. by unfold of_mock.
Qed.

(** X17.  Dispatch on two mock services gives [sync_tasks] as verified above:
    same returned world, and it returns. *)
Theorem sync_tasks_of_mock_services cls r1 r2 w :
  cls r1 = class_MockTaskService →
  cls r2 = class_MockTaskService →
  sync_tasks_of cls r1 r2 w = (Returns tt, (sync_tasks r1 r2 w).2).
Proof.
  intros H1 H2.
  assert (sync_tasks_of cls r1 r2 w = of_mock (sync_tasks r1 r2) w) as ->.
  { unfold sync_tasks_of, sync_tasks, fetch_tasks_of. rewrite H1, H2.
    unfold mbind, D_bind, D_then, M_bind, bind; simpl.
    by rewrite for_each_of_mock. }
  unfold of_mock. destruct (sync_tasks_world w r1 r2) as (Hok & _).
  destruct (sync_tasks r1 r2 w) as [res w']. simpl in *. by subst res.
Qed.

Lemma sync_tasks_of_mock_services_witness :
  sync_tasks_of (λ _, class_MockTaskService) 0 1
    {| services := two_services [t1_open] [t1_done]; calls := [] |} =
  (Returns tt,
   (sync_tasks 0 1
      {| services := two_services [t1_open] [t1_done]; calls := [] |}).2).
Proof.
  apply (sync_tasks_of_mock_services (λ _, class_MockTaskService) 0 1);
    reflexivity.
Defined.

(** X18.  A service of the base class, in either position, makes
    [sync_tasks] raise [NotImplementedError] at the fetch, before any call
    that changes a service: the world is as it was. *)
Theorem sync_tasks_of_base_service cls r1 r2 w :
  cls r1 = class_TaskServiceBase ∨ cls r2 = class_TaskServiceBase →
  sync_tasks_of cls r1 r2 w =
  (Throws (NotImplementedError
             "This method needs to be overridden by subclasses."), w).
Proof.
  intros Hc. unfold sync_tasks_of, fetch_tasks_of.
  unfold mbind, D_bind, D_then.
  destruct (cls r1) eqn:E1; [done|].
  destruct Hc as [Hc|Hc]; [done|]. by rewrite Hc.
Qed.

Lemma sync_tasks_of_base_service_witness :
  sync_tasks_of (λ r, if decide (r = 0) then class_MockTaskService
                      else class_TaskServiceBase) 0 1
    {| services := two_services [t1_open] [t1_done]; calls := [] |} =
  (Throws (NotImplementedError
             "This method needs to be overridden by subclasses."),
   {| services := two_services [t1_open] [t1_done]; calls := [] |}).
Proof.
  apply (sync_tasks_of_base_service
           (λ r, if decide (r = 0) then class_MockTaskService
                 else class_TaskServiceBase) 0 1).
  right. reflexivity.
Defined.
